(** * SpecTree: documentation audit scripts

    A shallow embedding of [scripts/audit-tool-docs.py] and
    [scripts/extract-tool-names.py].

    Python [str] values are sequences of Unicode code points; they are
    modelled as lists of code points ([N]).  The regular expressions
    of the scripts are written as data and run by a small backtracking
    matcher that follows the priorities of Python's [re] (greedy
    quantifiers try the longest repetition first, lazy ones the shortest).
    Dictionaries are [gmap]s: every iteration over a dictionary in the
    scripts goes through [sorted(d.keys())], so insertion order is never
    observed. *)

From stdpp Require Import gmap list sorting strings.
From Stdlib Require Import NArith ZArith Ascii.

Local Open Scope N_scope.
Local Open Scope nat_scope.

(** ** Text *)

Abbreviation str := (list N).

(** A literal of the scripts whose characters are all ASCII. *)
Definition lit (s : string) : str :=
  map N_of_ascii (String.list_ascii_of_string s).

Definition dquote : N := 34%N.
Definition squote : N := 39%N.

(** [s.startswith(p)] *)
Fixpoint startswith (s p : str) {struct p} : bool :=
  match p, s with
  | [], _ => true
  | _ :: _, [] => false
  | c :: p', d :: s' => if decide (c = d) then startswith s' p' else false
  end.

(** [s.endswith(p)] *)
Definition endswith (s p : str) : bool :=
  startswith (reverse s) (reverse p).

(** [needle in hay] *)
Fixpoint contains (needle hay : str) : bool :=
  if startswith hay needle then true
  else match hay with
       | [] => false
       | _ :: hay' => contains needle hay'
       end.

(** [needle] occurs in [hay] as a run of consecutive characters. *)
Definition occurs (needle hay : str) : Prop :=
  ∃ l1 l2, hay = l1 ++ needle ++ l2.

(** [hay.find(needle)]: the lowest index at which [needle] occurs, or -1. *)
Fixpoint find_from (needle hay : str) (i : nat) : option nat :=
  if startswith hay needle then Some i
  else match hay with
       | [] => None
       | _ :: hay' => find_from needle hay' (S i)
       end.

Definition find (hay needle : str) : Z :=
  match find_from needle hay 0 with
  | Some i => Z.of_nat i
  | None => (-1)%Z
  end.

(** [s[a:b]] for indices that are not negative. *)
Definition slice (s : str) (a b : nat) : str :=
  take (b - a) (drop a s).

(** [s[:k]], where [k] may be negative (it then counts from the end). *)
Definition slice_to (s : str) (k : Z) : str :=
  if (k <? 0)%Z then take (Z.to_nat (Z.of_nat (length s) + k)) s
  else take (Z.to_nat k) s.

(** Lexicographic order on code points, the order of [sorted] on [str]. *)
Fixpoint str_leb (a b : str) : bool :=
  match a, b with
  | [], _ => true
  | _ :: _, [] => false
  | x :: a', y :: b' =>
      if (x <? y)%N then true
      else if (y <? x)%N then false
      else str_leb a' b'
  end.

Definition str_le (a b : str) : Prop := str_leb a b = true.

Global Instance str_le_dec a b : Decision (str_le a b).
Proof. unfold str_le. apply _. Defined.

(** [sorted(l)] for a list of strings. *)
Definition sorted (l : list str) : list str := merge_sort str_le l.

(** ** Regular expressions

    Both patterns of the scripts are sequences of single characters and
    of character classes under a quantifier, with capture groups around
    some of them.  [Save] marks a group boundary: it records the current
    position. *)

Inductive greed := Greedy | Lazy.

Inductive item :=
  | One (c : N → bool)
  | Star (g : greed) (c : N → bool)
  | Save.

Abbreviation regex := (list item).

(** [c+] is [c] followed by [c*]. *)
Definition plus (c : N → bool) : regex := [One c; Star Greedy c].

Definition chr (a : N) : N → bool := λ x, bool_decide (x = a).

Definition literal (s : string) : regex := map (λ a, One (chr a)) (lit s).

(** The matcher: [rmatch r pos s caps] matches [r] against the text [s]
    that starts at position [pos]; on success it gives the end position
    and the recorded group boundaries, most recent first. *)
Fixpoint rmatch (r : regex) (pos : nat) (s : str) (caps : list nat)
  : option (nat * list nat) :=
  match r with
  | [] => Some (pos, caps)
  | One c :: r' =>
      match s with
      | x :: s' => if c x then rmatch r' (S pos) s' caps else None
      | [] => None
      end
  | Save :: r' => rmatch r' pos s (pos :: caps)
  | Star Greedy c :: r' =>
      (fix loop (pos : nat) (s : str) {struct s} : option (nat * list nat) :=
         match s with
         | x :: s' =>
             if c x then
               match loop (S pos) s' with
               | Some res => Some res
               | None => rmatch r' pos s caps
               end
             else rmatch r' pos s caps
         | [] => rmatch r' pos s caps
         end) pos s
  | Star Lazy c :: r' =>
      (fix loop (pos : nat) (s : str) {struct s} : option (nat * list nat) :=
         match rmatch r' pos s caps with
         | Some res => Some res
         | None =>
             match s with
             | x :: s' => if c x then loop (S pos) s' else None
             | [] => None
             end
         end) pos s
  end.

(** A match object: [m.start()], [m.end()] and the group boundaries. *)
Record rematch := Match {
  m_start : nat;
  m_end : nat;
  m_caps : list nat
}.

(** [re.finditer]: the matches from left to right, none overlapping.
    [skip] counts the characters still covered by the previous match.
    No pattern of the scripts matches the empty string
    ([patterns_nonempty]), so a match always moves the scan forward. *)
Fixpoint finditer_aux (r : regex) (skip pos : nat) (s : str) : list rematch :=
  match s with
  | [] => []
  | _ :: s' =>
      match skip with
      | S k => finditer_aux r k (S pos) s'
      | O =>
          match rmatch r pos s [] with
          | Some (e, caps) =>
              Match pos e caps :: finditer_aux r (e - pos - 1) (S pos) s'
          | None => finditer_aux r 0 (S pos) s'
          end
      end
  end.

Definition finditer (r : regex) (content : str) : list rematch :=
  finditer_aux r 0 0 content.

(** [m.group(k)] for [k] = 1, 2, ...: the text between the boundaries of
    the [k]-th group.  The boundaries are stored most recent first. *)
Definition group (content : str) (m : rematch) (k : nat) : str :=
  let bs := reverse (m_caps m) in
  match bs !! (2 * (k - 1)), bs !! (2 * (k - 1) + 1) with
  | Some a, Some b => slice content a b
  | _, _ => []
  end.

(** Character classes.  [\s] on [str] patterns is Unicode white space. *)
Definition is_space (x : N) : bool :=
  ((9 <=? x) && (x <=? 13) || (28 <=? x) && (x <=? 32)
   || (x =? 133) || (x =? 160) || (x =? 5760)
   || (8192 <=? x) && (x <=? 8202)
   || (x =? 8232) || (x =? 8233) || (x =? 8239) || (x =? 8287)
   || (x =? 12288))%N.

(** The class of the two quote characters, double and single. *)
Definition is_quote (x : N) : bool :=
  bool_decide (x = dquote) || bool_decide (x = squote).

(** The negated quote class: any character that is not a quote. *)
Definition not_quote (x : N) : bool := negb (is_quote x).

(** [^}] *)
Definition not_rbrace (x : N) : bool := negb (bool_decide (x = 125%N)).

(** [a-z_] *)
Definition is_lower_us (x : N) : bool :=
  ((97 <=? x) && (x <=? 122) || (x =? 95))%N.

(** The pattern of [extract-tool-names.py], which is also the head of the
    audit's pattern: [server\.registerTool\(\s*Q([^Q]+)Q], where [Q]
    stands for the quote class. *)
Definition name_pattern : regex :=
  literal "server.registerTool(" ++
  [Star Greedy is_space; One is_quote; Save] ++ plus not_quote ++
  [Save; One is_quote].

(** The pattern of [audit-tool-docs.py]:
    [server\.registerTool\(\s*Q([^Q]+)Q,\s*\{[^}]*?description:\s*Q([^Q]+)].
    The flag [re.DOTALL] changes the meaning of the dot only, and the
    pattern has no unescaped dot. *)
Definition register_pattern : regex :=
  name_pattern ++
  literal "," ++ [Star Greedy is_space] ++ literal "{" ++
  [Star Lazy not_rbrace] ++ literal "description:" ++
  [Star Greedy is_space; One is_quote; Save] ++ plus not_quote ++ [Save].

(** [spectree__[a-z_]+] *)
Definition mention_pattern : regex :=
  literal "spectree__" ++ plus is_lower_us.

Definition prefix_ns : str := lit "spectree__".

(** ** [audit-tool-docs.py]: the source extractor *)

Record ToolRecord := {
  file : str;
  deprecated : bool;
  description : str
}.

Definition DEPRECATED : str := lit "DEPRECATED".

(** The warning glyph of the script: U+26A0 followed by the variation
    selector U+FE0F. *)
Definition warning_glyph : str := [9888%N; 65039%N].

Definition ellipsis : str := lit "...".

(** The body of the loop over the matches once the name has passed the
    prefix test (lines 27 to 35).  The script also computes [preceding],
    the 500 characters before the match, and never uses it. *)
Definition record_of (content file_path : str) (m : rematch) : ToolRecord :=
  let desc_start := m_start m in
  let window := slice content desc_start (desc_start + 200) in
  let deprecated := contains DEPRECATED window || contains warning_glyph window in
  let g2 := group content m 2 in
  {| file := file_path;
     deprecated := deprecated;
     description :=
       if 100 <? length g2 then take 100 g2 ++ ellipsis else g2 |}.

Definition process_match (content file_path : str)
    (tools : gmap str ToolRecord) (m : rematch) : gmap str ToolRecord :=
  let tool_name := group content m 1 in
  if startswith tool_name prefix_ns
  then <[tool_name := record_of content file_path m]> tools
  else tools.

(** One iteration of the loop over the files; [read] is the text that
    [open(file_path).read()] returns. *)
Definition process_file (read : str → str)
    (tools : gmap str ToolRecord) (file_path : str) : gmap str ToolRecord :=
  let content := read file_path in
  foldl (process_match content file_path) tools
        (finditer register_pattern content).

Definition test_suffix : str := lit ".test.ts".

(** [extract_tools_from_source]; [tool_files] is the result of the
    recursive [glob.glob]. *)
Definition extract_tools_from_source (tool_files : list str)
    (read : str → str) : gmap str ToolRecord :=
  let tool_files := filter (λ f, endswith f test_suffix = false) tool_files in
  foldl (process_file read) ∅ (sorted tool_files).

(** ** [audit-tool-docs.py]: the documentation extractor *)

(** [re.findall] for a pattern without groups: the matched texts. *)
Definition findall (r : regex) (content : str) : list str :=
  map (λ m, slice content (m_start m) (m_end m)) (finditer r content).

Fixpoint split_on (sep : N) (s : str) : list str :=
  match s with
  | [] => [[]]
  | x :: s' =>
      if decide (x = sep) then [] :: split_on sep s'
      else match split_on sep s' with
           | w :: ws => (x :: w) :: ws
           | [] => [[x]]
           end
  end.

(** [Path(p).name]: the last component of the path; empty components and
    single dots are no components. *)
Definition path_name (p : str) : str :=
  let parts := filter (λ w, w ≠ [] ∧ w ≠ lit ".") (split_on 47%N p) in
  default [] (last parts).

(** [doc_mentions[tool_name].append(label)] on a [defaultdict(list)]. *)
Definition append_mention (label : str)
    (doc_mentions : gmap str (list str)) (tool_name : str)
  : gmap str (list str) :=
  <[tool_name := default [] (doc_mentions !! tool_name) ++ [label]]> doc_mentions.

(** One iteration of the loop over the documents.  The order in which
    Python iterates over [set(matches)] is not specified; here it is the
    order of first occurrence ([iteration_order_irrelevant] shows that
    the order has no effect). *)
Definition process_doc (read : str → str)
    (doc_mentions : gmap str (list str)) (doc_file : str)
  : gmap str (list str) :=
  let content := read doc_file in
  let matches := findall mention_pattern content in
  foldl (append_mention (path_name doc_file)) doc_mentions
        (remove_dups matches).

Definition extract_tools_from_docs (doc_files : list str)
    (read : str → str) : gmap str (list str) :=
  foldl (process_doc read) ∅ (sorted doc_files).

(** ** [audit-tool-docs.py]: the audit *)

Record AuditResult := {
  source_count : nat;
  doc_count : nat;
  deprecated_count : nat;
  not_in_source : list str;
  deprecated_in_docs : list str;
  not_documented : list str;
  audit_failed : bool
}.

Definition keys {V} (d : gmap str V) : list str := elements (dom d).

(** A list is true in a condition when it is not empty. *)
Definition truthy {A} (l : list A) : bool :=
  match l with [] => false | _ :: _ => true end.

Definition audit (source_tools : gmap str ToolRecord)
    (doc_tools : gmap str (list str)) : AuditResult :=
  let not_in_source :=
    foldl (λ acc tool_name,
             match source_tools !! tool_name with
             | None => acc ++ [tool_name]
             | Some _ => acc
             end) [] (sorted (keys doc_tools)) in
  let deprecated_in_docs :=
    foldl (λ acc tool_name,
             match source_tools !! tool_name with
             | Some t => if deprecated t then acc ++ [tool_name] else acc
             | None => acc
             end) [] (sorted (keys doc_tools)) in
  let not_documented :=
    foldl (λ acc tool_name,
             match doc_tools !! tool_name with
             | None => acc ++ [tool_name]
             | Some _ => acc
             end) [] (sorted (keys source_tools)) in
  {| source_count := size source_tools;
     doc_count := size doc_tools;
     deprecated_count :=
       length (filter (λ kt, deprecated kt.2 = true) (map_to_list source_tools));
     not_in_source := not_in_source;
     deprecated_in_docs := deprecated_in_docs;
     not_documented := not_documented;
     audit_failed := truthy not_in_source || truthy deprecated_in_docs |}.

(** The whole script, from the two file listings and the file contents. *)
Definition run_audit (tool_files doc_files : list str) (read : str → str)
  : AuditResult :=
  audit (extract_tools_from_source tool_files read)
        (extract_tools_from_docs doc_files read).

(** ** [extract-tool-names.py] *)

Record NameEntry := {
  name : str;
  name_file : str;
  name_deprecated : bool
}.

(** [re.findall] for a pattern with one group: the texts of the group. *)
Definition findall1 (r : regex) (content : str) : list str :=
  map (λ m, group content m 1) (finditer r content).

Definition names_of_file (read : str → str) (tools : list NameEntry)
    (file_path : str) : list NameEntry :=
  let content := read file_path in
  foldl (λ tools mtch,
           if startswith mtch prefix_ns then
             let deprecated :=
               contains DEPRECATED (slice_to content (find content mtch)) in
             tools ++ [{| name := mtch; name_file := file_path;
                          name_deprecated := deprecated |}]
           else tools)
        tools (findall1 name_pattern content).

Definition extract_tool_names (tool_files : list str) (read : str → str)
  : list NameEntry :=
  let tool_files := filter (λ f, endswith f test_suffix = false) tool_files in
  foldl (names_of_file read) [] (sorted tool_files).

(** The listing at the end of the script: [sorted(tools, key=...)] orders
    the entries by name and keeps entries of the same name in the order
    they have in [tools] (Python's sort is stable).  Each entry is put in
    front of the first entry whose name is not smaller. *)
Fixpoint insert_by_name (e : NameEntry) (l : list NameEntry) : list NameEntry :=
  match l with
  | [] => [e]
  | x :: l' =>
      if str_leb (name e) (name x) then e :: x :: l'
      else x :: insert_by_name e l'
  end.

Definition sorted_by_name (l : list NameEntry) : list NameEntry :=
  foldr insert_by_name [] l.

Definition listing (tool_files : list str) (read : str → str)
  : list NameEntry :=
  sorted_by_name (extract_tool_names tool_files read).

(** The order of the listing. *)
Definition name_le (a b : NameEntry) : Prop := str_le (name a) (name b).

(** A file with a marker in a comment above two tools. *)
Definition two_tools_content : str :=
  lit "// DEPRECATED helpers
server.registerTool('spectree__a', { description: 'one' });
server.registerTool('spectree__b', { description: 'two' });".

(** ** Auxiliary notions for the statements *)

(** The records that one file contributes on its own. *)
Definition file_tools (read : str → str) (file_path : str)
  : gmap str ToolRecord :=
  process_file read ∅ file_path.

(** The document mentions the identifier: the mention pattern finds it. *)
Definition mentions (read : str → str) (id doc_file : str) : Prop :=
  id ∈ findall mention_pattern (read doc_file).

Global Instance mentions_dec read id doc_file : Decision (mentions read id doc_file).
Proof. unfold mentions. apply _. Defined.

(** The part of the audit's pattern that follows the quoted identifier. *)
Definition tail_pattern : regex :=
  literal "," ++ [Star Greedy is_space] ++ literal "{" ++
  [Star Lazy not_rbrace] ++ literal "description:" ++
  [Star Greedy is_space; One is_quote; Save] ++ plus not_quote ++ [Save].

(** The parts of a registration: [server.registerTool(], white space, the
    quoted identifier, a comma, white space, an opening brace, any text,
    [description:], white space and the quoted description. *)
Record Registration := {
  reg_ws1 : str;
  reg_q1 : N;
  reg_id : str;
  reg_q2 : N;
  reg_ws2 : str;
  reg_filler : str;
  reg_ws3 : str;
  reg_q3 : N;
  reg_desc : str;
  reg_q4 : N
}.

Definition reg_text (g : Registration) : str :=
  lit "server.registerTool(" ++ reg_ws1 g ++ [reg_q1 g] ++ reg_id g ++
  [reg_q2 g] ++ lit "," ++ reg_ws2 g ++ lit "{" ++ reg_filler g ++
  lit "description:" ++ reg_ws3 g ++ [reg_q3 g] ++ reg_desc g ++ [reg_q4 g].

(** The separators are white space, the four delimiters are quotes, the
    identifier and the description are not empty and hold no quote, and
    the text between the opening brace and [description:] holds no
    closing brace. *)
Record reg_wf (g : Registration) : Prop := {
  wf_ws1 : Forall (λ x, is_space x = true) (reg_ws1 g);
  wf_ws2 : Forall (λ x, is_space x = true) (reg_ws2 g);
  wf_ws3 : Forall (λ x, is_space x = true) (reg_ws3 g);
  wf_q1 : is_quote (reg_q1 g) = true;
  wf_q2 : is_quote (reg_q2 g) = true;
  wf_q3 : is_quote (reg_q3 g) = true;
  wf_q4 : is_quote (reg_q4 g) = true;
  wf_id : reg_id g ≠ [] ∧ Forall (λ x, is_quote x = false) (reg_id g);
  wf_desc : reg_desc g ≠ [] ∧ Forall (λ x, is_quote x = false) (reg_desc g);
  wf_filler : Forall (λ x, x ≠ 125%N) (reg_filler g)
}.

(** The texts a pattern can match: [shape r pos t caps caps'] says that
    [r] takes exactly the text [t] when it starts at position [pos], and
    turns the recorded boundaries [caps] into [caps']. *)
Inductive shape : regex → nat → str → list nat → list nat → Prop :=
  | shape_nil pos caps : shape [] pos [] caps caps
  | shape_one c r pos x t caps caps' :
      c x = true →
      shape r (S pos) t caps caps' →
      shape (One c :: r) pos (x :: t) caps caps'
  | shape_star g c r pos l t caps caps' :
      Forall (λ x, c x = true) l →
      shape r (pos + length l) t caps caps' →
      shape (Star g c :: r) pos (l ++ t) caps caps'
  | shape_save r pos t caps caps' :
      shape r pos t (pos :: caps) caps' →
      shape (Save :: r) pos t caps caps'.

(** Texts made of lowercase letters and underscores only. *)
Definition lower_us (l : str) : Prop := Forall (λ c, is_lower_us c = true) l.

(** ** Sample inputs *)

(** Scenario 2 of the specification: the source registers two tools and
    the documentation mentions only the first. *)
Definition scenario2_source : gmap str ToolRecord :=
  <[lit "spectree__a" := Build_ToolRecord (lit "a.ts") false (lit "first")]>
  (<[lit "spectree__b" := Build_ToolRecord (lit "a.ts") false (lit "second")]> ∅).

Definition scenario2_docs : gmap str (list str) :=
  <[lit "spectree__a" := [lit "tools.md"]]> ∅.

(** A file that registers one deprecated tool and one tool whose
    description has 104 characters. *)
Definition sample_path : str := lit "packages/mcp/src/tools/sample.ts".

Definition sample_content : str :=
  lit "server.registerTool('spectree__old', { description: 'DEPRECATED: use search' });
server.registerTool('spectree__long', { title: 'Long', description: '"
  ++ replicate 104 120%N ++ lit "' });".

Definition sample_read : str → str := λ _, sample_content.

(** Two registrations whose quotes do not pair up: the identifier of the
    first opens with a double quote and closes with a single one, the
    identifier of the second opens with a single quote and closes with a
    double one, and the descriptions open with the other kind. *)
Definition mixed_content : str :=
  lit "server.registerTool(" ++ [dquote] ++
  lit "spectree__one', { description: 'first" ++ [dquote] ++
  lit " }); server.registerTool('spectree__two" ++ [dquote] ++
  lit ", { description: " ++ [dquote] ++ lit "second' });".

(** A document that mentions the same identifier three times. *)
Definition triple_doc : str :=
  lit "Use spectree__foo first; spectree__foo again, then spectree__foo.".

(** The files [a.ts] and [b.ts] register the same tool; only [a.ts]
    marks it deprecated. *)
Definition ab_read (file_path : str) : str :=
  if decide (file_path = lit "a.ts")
  then lit "server.registerTool('spectree__dup', { description: 'DEPRECATED old' });"
  else lit "server.registerTool('spectree__dup', { description: 'current' });".

(** A file whose only marker stands in a comment far above the tool. *)
Definition commented_content : str :=
  lit "// DEPRECATED helpers were removed from this module.
server.registerTool('spectree__new', { description: 'fresh' });".

(** A registration after a comment, with line breaks between its parts
    and an opening brace before its description. *)
Definition spaced_registration : Registration :=
  {| reg_ws1 := lit "
    ";
     reg_q1 := squote;
     reg_id := lit "spectree__search";
     reg_q2 := dquote;
     reg_ws2 := lit "
    ";
     reg_filler := lit "
      title: 'Search',
      inputSchema: { type: 'object',
      ";
     reg_ws3 := lit " ";
     reg_q3 := squote;
     reg_desc := lit "Search the tree";
     reg_q4 := squote |}.

Definition spaced_content : str :=
  lit "// tools
" ++ reg_text spaced_registration ++ lit " });".

(** A registration that follows a commented-out line with an opening
    brace. *)
Definition shadowed_registration : Registration :=
  {| reg_ws1 := []; reg_q1 := squote; reg_id := lit "spectree__a";
     reg_q2 := squote; reg_ws2 := lit " "; reg_filler := lit " ";
     reg_ws3 := lit " "; reg_q3 := squote; reg_desc := lit "d";
     reg_q4 := squote |}.

Definition shadowed_prefix : str :=
  lit "// server.registerTool('legacy', {
".

Definition shadowed_content : str :=
  shadowed_prefix ++ reg_text shadowed_registration ++ lit " });".

(** A registration whose schema closes a brace before the description. *)
Definition nested_content : str :=
  lit "server.registerTool('spectree__n', { inputSchema: {}, description: 'd' });".

(** A file that registers the same tool twice. *)
Definition twice_content : str :=
  lit "server.registerTool('spectree__twice', { description: 'DEPRECATED one' });
server.registerTool('spectree__twice', { description: 'two' });".

(** * Properties *)

(** ** Text operations *)

Lemma startswith_spec (s p : str) :
  startswith s p = true ↔ ∃ t, s = p ++ t.
Proof.
  revert s. induction p as [|c p IH]; intros s; simpl.
  - split; [eauto | done].
  - destruct s as [|d s].
    + split; [done | intros [t Ht]; discriminate].
    + case_decide as Hcd.
      * subst d. rewrite IH. split; intros [t Ht]; exists t; simpl in *; congruence.
      * split; [done | intros [t Ht]; simpl in Ht; congruence].
Qed.

Lemma startswith_app (p t : str) : startswith (p ++ t) p = true.
Proof. apply startswith_spec. eauto. Qed.

Lemma contains_spec (needle hay : str) :
  contains needle hay = true ↔ occurs needle hay.
Proof.
  unfold occurs. induction hay as [|x hay IH]; simpl.
  - destruct (startswith [] needle) eqn:E.
    + apply startswith_spec in E as [t Ht]. split; [|done].
      intros _. exists [], t. done.
    + split; [done|]. intros (l1 & l2 & H).
      destruct l1, needle; done.
  - destruct (startswith (x :: hay) needle) eqn:E.
    + apply startswith_spec in E as [t Ht]. split; [|done].
      intros _. exists [], t. done.
    + rewrite IH. split.
      * intros (l1 & l2 & ->). exists (x :: l1), l2. done.
      * intros (l1 & l2 & H). destruct l1 as [|y l1].
        -- simpl in H. rewrite H, startswith_app in E. done.
        -- injection H as -> ->. eauto.
Qed.

(** [find_from] gives the first position at which the needle occurs. *)
Lemma find_from_Some (needle hay : str) (i k : nat) :
  find_from needle hay i = Some k ↔
  ∃ before after, hay = before ++ needle ++ after ∧ k = i + length before ∧
    ∀ b' a', hay = b' ++ needle ++ a' → length before ≤ length b'.
Proof.
  revert i. induction hay as [|x hay IH]; intros i; simpl.
  - destruct (startswith [] needle) eqn:E.
    + apply startswith_spec in E as [t Ht]. split.
      * intros [= <-]. exists [], t. simpl. repeat split; [done | lia | lia].
      * intros (b & a & H & -> & _). destruct b; [f_equal; simpl; lia | done].
    + split; [done|]. intros (b & a & H & _).
      destruct b, needle; done.
  - destruct (startswith (x :: hay) needle) eqn:E.
    + apply startswith_spec in E as [t Ht]. split.
      * intros [= <-]. exists [], t. simpl. repeat split; [done | lia | lia].
      * intros (b & a & H & -> & Hmin).
        specialize (Hmin [] t Ht). destruct b; [f_equal; simpl; lia|].
        simpl in Hmin. lia.
    + rewrite IH. split.
      * intros (b & a & -> & -> & Hmin). exists (x :: b), a.
        split; [done|]. split; [simpl; lia|].
        intros b' a' H. destruct b' as [|y b'].
        -- simpl in H. rewrite H, startswith_app in E. done.
        -- injection H as -> H. simpl. apply Hmin in H. lia.
      * intros (b & a & H & -> & Hmin). destruct b as [|y b].
        -- simpl in H. rewrite H, startswith_app in E. done.
        -- injection H as -> ->. exists b, a.
           split; [done|]. split; [simpl; lia|].
           intros b' a' H. specialize (Hmin (y :: b') a'). simpl in Hmin.
           rewrite H in Hmin. specialize (Hmin eq_refl). lia.
Qed.

Lemma find_from_None (needle hay : str) (i : nat) :
  find_from needle hay i = None ↔ ¬ occurs needle hay.
Proof.
  rewrite <- contains_spec. revert i.
  induction hay as [|x hay IH]; intros i; simpl.
  - destruct (startswith [] needle); split; done.
  - destruct (startswith (x :: hay) needle); [split; done|]. apply IH.
Qed.

(** ** The order of [sorted] *)

Global Instance str_le_total : Total str_le.
Proof.
  intros a. unfold str_le. induction a as [|x a IH]; intros [|y b]; simpl; auto.
  destruct (N.ltb_spec x y), (N.ltb_spec y x); auto; lia.
Qed.

Global Instance str_le_trans : Transitive str_le.
Proof.
  intros a. unfold str_le.
  induction a as [|x a IH]; intros [|y b] [|z c]; simpl; auto; try done.
  destruct (N.ltb_spec x y), (N.ltb_spec y x), (N.ltb_spec y z),
    (N.ltb_spec z y), (N.ltb_spec x z), (N.ltb_spec z x);
    try done; try lia; eauto.
Qed.

Global Instance str_le_antisymm : AntiSymm (=) str_le.
Proof.
  intros a. unfold str_le.
  induction a as [|x a IH]; intros [|y b]; simpl; auto; try done.
  destruct (N.ltb_spec x y), (N.ltb_spec y x); try done; try lia.
  intros H1 H2. f_equal; [lia | auto].
Qed.

Lemma sorted_perm (l : list str) : sorted l ≡ₚ l.
Proof. apply merge_sort_Permutation. Qed.

Lemma sorted_elem_of (l : list str) (x : str) : x ∈ sorted l ↔ x ∈ l.
Proof. by rewrite sorted_perm. Qed.

Lemma sorted_strongly (l : list str) : StronglySorted str_le (sorted l).
Proof. apply Sorted_StronglySorted; [apply _ | apply Sorted_merge_sort, _]. Qed.

Lemma sorted_NoDup (l : list str) : NoDup l → NoDup (sorted l).
Proof. by rewrite sorted_perm. Qed.

(** ** Loops that collect into a list *)

Lemma foldl_collect {A} (f : A → bool) (g : list A → A → list A)
    (acc : list A) (l : list A) :
  (∀ acc x, g acc x = if f x then acc ++ [x] else acc) →
  foldl g acc l = acc ++ filter (λ x, f x = true) l.
Proof.
  intros Hg. revert acc. induction l as [|x l IH]; intros acc; simpl.
  - by rewrite app_nil_r.
  - rewrite IH, Hg. destruct (f x) eqn:E.
    + rewrite filter_cons_True by done. by rewrite <- app_assoc.
    + rewrite filter_cons_False; [done | congruence].
Qed.

(** ** The reconciler *)

Section reconciler.
Context (src : gmap str ToolRecord) (docs : gmap str (list str)).

Lemma keys_elem_of {V} (d : gmap str V) (k : str) :
  k ∈ sorted (keys d) ↔ is_Some (d !! k).
Proof. unfold keys. by rewrite sorted_elem_of, elem_of_elements, elem_of_dom. Qed.

Lemma keys_NoDup {V} (d : gmap str V) : NoDup (sorted (keys d)).
Proof. apply sorted_NoDup, NoDup_elements. Qed.

Lemma not_in_source_filter :
  not_in_source (audit src docs) =
  filter (λ k, bool_decide (src !! k = None) = true) (sorted (keys docs)).
Proof.
  simpl. rewrite (foldl_collect (λ k, bool_decide (src !! k = None))); [done|].
  intros acc k. destruct (src !! k); done.
Qed.

Lemma deprecated_in_docs_filter :
  deprecated_in_docs (audit src docs) =
  filter (λ k, from_option deprecated false (src !! k) = true) (sorted (keys docs)).
Proof.
  simpl. rewrite (foldl_collect (λ k, from_option deprecated false (src !! k)));
    [done|].
  intros acc k. destruct (src !! k); done.
Qed.

Lemma not_documented_filter :
  not_documented (audit src docs) =
  filter (λ k, bool_decide (docs !! k = None) = true) (sorted (keys src)).
Proof.
  simpl. rewrite (foldl_collect (λ k, bool_decide (docs !! k = None))); [done|].
  intros acc k. destruct (docs !! k); done.
Qed.

Lemma elem_of_not_in_source (k : str) :
  k ∈ not_in_source (audit src docs) ↔ k ∈ dom docs ∧ k ∉ dom src.
Proof.
  rewrite not_in_source_filter, list_elem_of_filter, keys_elem_of,
    bool_decide_eq_true, !elem_of_dom, <- eq_None_not_Some. tauto.
Qed.

Lemma elem_of_deprecated_in_docs (k : str) :
  k ∈ deprecated_in_docs (audit src docs) ↔
  k ∈ dom docs ∧ ∃ t, src !! k = Some t ∧ deprecated t = true.
Proof.
  rewrite deprecated_in_docs_filter, list_elem_of_filter, keys_elem_of,
    elem_of_dom.
  destruct (src !! k) as [t|]; simpl; split.
  - intros [? ?]; eauto.
  - intros [? (t' & [= <-] & ?)]; done.
  - intros [? ?]; done.
  - intros [? (t' & ? & ?)]; done.
Qed.

Lemma elem_of_not_documented (k : str) :
  k ∈ not_documented (audit src docs) ↔ k ∈ dom src ∧ k ∉ dom docs.
Proof.
  rewrite not_documented_filter, list_elem_of_filter, keys_elem_of,
    bool_decide_eq_true, !elem_of_dom, <- eq_None_not_Some. tauto.
Qed.

Lemma truthy_spec {A} (l : list A) : truthy l = true ↔ l ≠ [].
Proof. destruct l; simpl; split; done. Qed.
End reconciler.

(** C1: the audit fails exactly when [not_in_source] or
    [deprecated_in_docs] is not empty.  The list of undocumented tools
    has no part in it: whenever the two other lists are empty the audit
    passes, and it does pass on an input that has an undocumented tool. *)
Theorem audit_failed_iff :
  (∀ (src : gmap str ToolRecord) (docs : gmap str (list str)),
     audit_failed (audit src docs) = true ↔
     not_in_source (audit src docs) ≠ [] ∨ deprecated_in_docs (audit src docs) ≠ []) ∧
  (∀ (src : gmap str ToolRecord) (docs : gmap str (list str)),
     not_in_source (audit src docs) = [] ∧ deprecated_in_docs (audit src docs) = [] ↔
     audit_failed (audit src docs) = false) ∧
  (not_documented (audit scenario2_source scenario2_docs) = [lit "spectree__b"] ∧
   audit_failed (audit scenario2_source scenario2_docs) = false).
Proof.
  split; [|split].
  - intros src docs.
    change (audit_failed (audit src docs)) with
      (truthy (not_in_source (audit src docs)) || truthy (deprecated_in_docs (audit src docs))).
    rewrite orb_true_iff, !truthy_spec. done.
  - intros src docs.
    change (audit_failed (audit src docs)) with
      (truthy (not_in_source (audit src docs)) || truthy (deprecated_in_docs (audit src docs))).
    rewrite orb_false_iff.
    destruct (not_in_source (audit src docs)), (deprecated_in_docs (audit src docs));
      simpl; split; intros [? ?]; done.
  - split; vm_compute; reflexivity.
Qed.

(** C2: the three lists of the reconciler, as sets.  Each list has no
    repetition, so it is exactly the set on the right. *)
Theorem reconciler_sets (src : gmap str ToolRecord) (docs : gmap str (list str)) :
  (∀ k, k ∈ not_in_source (audit src docs) ↔ k ∈ dom docs ∧ k ∉ dom src) ∧
  (∀ k, k ∈ deprecated_in_docs (audit src docs) ↔
        k ∈ dom docs ∧ k ∈ dom src ∧ ∃ t, src !! k = Some t ∧ deprecated t = true) ∧
  (∀ k, k ∈ not_documented (audit src docs) ↔ k ∈ dom src ∧ k ∉ dom docs) ∧
  NoDup (not_in_source (audit src docs)) ∧
  NoDup (deprecated_in_docs (audit src docs)) ∧
  NoDup (not_documented (audit src docs)) ∧
  (∀ k, k ∈ not_in_source (audit src docs) → k ∉ dom src) ∧
  (∀ k, k ∈ not_documented (audit src docs) → k ∉ dom docs).
Proof.
  split_and!.
  - apply elem_of_not_in_source.
  - intros k. rewrite elem_of_deprecated_in_docs. split.
    + intros [? (t & Ht & ?)]. split_and!; [done | apply elem_of_dom | ]; eauto.
    + intros (? & ? & ?). done.
  - apply elem_of_not_documented.
  - rewrite not_in_source_filter. apply NoDup_filter, keys_NoDup.
  - rewrite deprecated_in_docs_filter. apply NoDup_filter, keys_NoDup.
  - rewrite not_documented_filter. apply NoDup_filter, keys_NoDup.
  - by intros k [? ?]%elem_of_not_in_source.
  - by intros k [? ?]%elem_of_not_documented.
Qed.

(** ** Where the records of the source extractor come from *)

Lemma process_match_lookup (content file_path : str)
    (tools : gmap str ToolRecord) (m : rematch) (id : str) (t : ToolRecord) :
  process_match content file_path tools m !! id = Some t →
  tools !! id = Some t ∨
  (group content m 1 = id ∧ startswith id prefix_ns = true ∧
   t = record_of content file_path m).
Proof.
  unfold process_match.
  destruct (startswith (group content m 1) prefix_ns) eqn:E; [|auto].
  destruct (decide (group content m 1 = id)) as [<-|Hne].
  - rewrite lookup_insert_eq. intros [= <-]. auto.
  - rewrite lookup_insert_ne by done. auto.
Qed.

Lemma foldl_process_match_lookup (content file_path : str) (ms : list rematch)
    (tools : gmap str ToolRecord) (id : str) (t : ToolRecord) :
  foldl (process_match content file_path) tools ms !! id = Some t →
  tools !! id = Some t ∨
  ∃ m, m ∈ ms ∧ group content m 1 = id ∧ startswith id prefix_ns = true ∧
       t = record_of content file_path m.
Proof.
  revert tools. induction ms as [|m ms IH]; intros tools; simpl; [auto|].
  intros [H|(m' & ? & ?)]%IH.
  - apply process_match_lookup in H as [?|?]; [auto|].
    right. exists m. split; [left | done].
  - right. exists m'. split; [by right | done].
Qed.

Lemma process_file_lookup (read : str → str) (tools : gmap str ToolRecord)
    (file_path id : str) (t : ToolRecord) :
  process_file read tools file_path !! id = Some t →
  tools !! id = Some t ∨
  ∃ m, m ∈ finditer register_pattern (read file_path) ∧
       group (read file_path) m 1 = id ∧ startswith id prefix_ns = true ∧
       t = record_of (read file_path) file_path m.
Proof. apply foldl_process_match_lookup. Qed.

Lemma foldl_process_file_lookup (read : str → str) (ps : list str)
    (tools : gmap str ToolRecord) (id : str) (t : ToolRecord) :
  foldl (process_file read) tools ps !! id = Some t →
  tools !! id = Some t ∨
  ∃ p m, p ∈ ps ∧ m ∈ finditer register_pattern (read p) ∧
         group (read p) m 1 = id ∧ startswith id prefix_ns = true ∧
         t = record_of (read p) p m.
Proof.
  revert tools. induction ps as [|p ps IH]; intros tools; simpl; [auto|].
  intros [H|(p' & m & ? & ?)]%IH.
  - apply process_file_lookup in H as [?|(m & ?)]; [auto|].
    right. exists p, m. split; [left | done].
  - right. exists p', m. split; [by right | done].
Qed.

(** Every record of the final mapping was built from a match of the
    registration pattern in one of the listed files. *)
Lemma extract_tools_from_source_lookup (tool_files : list str)
    (read : str → str) (id : str) (t : ToolRecord) :
  extract_tools_from_source tool_files read !! id = Some t →
  ∃ p m, p ∈ tool_files ∧ endswith p test_suffix = false ∧
         m ∈ finditer register_pattern (read p) ∧
         group (read p) m 1 = id ∧ startswith id prefix_ns = true ∧
         t = record_of (read p) p m.
Proof.
  unfold extract_tools_from_source.
  intros [H|(p & m & Hp & ?)]%foldl_process_file_lookup; [done|].
  apply sorted_elem_of, list_elem_of_filter in Hp as [? ?].
  exists p, m. done.
Qed.

Lemma names_of_file_elem_of (read : str → str) (tools : list NameEntry)
    (file_path : str) (e : NameEntry) :
  e ∈ names_of_file read tools file_path →
  e ∈ tools ∨
  (name_file e = file_path ∧
   name e ∈ findall1 name_pattern (read file_path) ∧
   startswith (name e) prefix_ns = true ∧
   name_deprecated e =
     contains DEPRECATED
       (slice_to (read file_path) (find (read file_path) (name e)))).
Proof.
  unfold names_of_file.
  generalize (findall1 name_pattern (read file_path)) as ms.
  intros ms. revert tools. induction ms as [|x ms IH]; intros tools; cbn [foldl]; [auto|].
  intros [H|(? & ? & ? & ?)]%IH.
  - destruct (startswith x prefix_ns) eqn:E; [|auto].
    apply elem_of_app in H as [?|Hx%list_elem_of_singleton]; [auto|subst e].
    right. cbn [name name_file name_deprecated]. split_and!; [done | left | done | done].
  - right. split_and!; [done | by right | done..].
Qed.

Lemma extract_tool_names_elem_of (tool_files : list str) (read : str → str)
    (e : NameEntry) :
  e ∈ extract_tool_names tool_files read →
  name_file e ∈ tool_files ∧
  name e ∈ findall1 name_pattern (read (name_file e)) ∧
  startswith (name e) prefix_ns = true ∧
  name_deprecated e =
    contains DEPRECATED
      (slice_to (read (name_file e)) (find (read (name_file e)) (name e))).
Proof.
  unfold extract_tool_names.
  set (ps := sorted _).
  assert (Hps : ∀ p, p ∈ ps → p ∈ tool_files).
  { intros p [_ ?]%sorted_elem_of%list_elem_of_filter. done. }
  assert (Hgen : ∀ tools, e ∈ foldl (names_of_file read) tools ps →
    e ∈ tools ∨ (name_file e ∈ ps ∧
      name e ∈ findall1 name_pattern (read (name_file e)) ∧
      startswith (name e) prefix_ns = true ∧
      name_deprecated e =
        contains DEPRECATED
          (slice_to (read (name_file e)) (find (read (name_file e)) (name e))))).
  { clear Hps. induction ps as [|p ps IH]; intros tools; simpl; [auto|].
    intros [H|(? & ?)]%IH.
    - apply names_of_file_elem_of in H as [?|(<- & ?)]; [auto|].
      right. split; [left | done].
    - right. split; [by right | done]. }
  intros [H|(? & ?)]%Hgen; [by apply elem_of_nil in H|]. split; auto.
Qed.

(** C8: every key of the source extractor's mapping starts with the
    namespace prefix; a match whose identifier lacks the prefix leaves
    the mapping as it was (the step is a total function, so nothing is
    raised).  The same filter guards the list of [extract-tool-names.py]. *)
Theorem prefix_filter :
  (∀ (tool_files : list str) (read : str → str) (id : str),
     id ∈ dom (extract_tools_from_source tool_files read) →
     ∃ rest, id = lit "spectree__" ++ rest) ∧
  (∀ (content file_path : str) (tools : gmap str ToolRecord) (m : rematch),
     (¬ ∃ rest, group content m 1 = lit "spectree__" ++ rest) →
     process_match content file_path tools m = tools) ∧
  (∀ (tool_files : list str) (read : str → str) (e : NameEntry),
     e ∈ extract_tool_names tool_files read →
     ∃ rest, name e = lit "spectree__" ++ rest).
Proof.
  split_and!.
  - intros tool_files read id [t Ht]%elem_of_dom.
    apply extract_tools_from_source_lookup in Ht as (p & m & _ & _ & _ & _ & Hpre & _).
    by apply startswith_spec.
  - intros content file_path tools m Hno. unfold process_match.
    destruct (startswith (group content m 1) prefix_ns) eqn:E; [|done].
    apply startswith_spec in E. done.
  - intros tool_files read e (_ & _ & Hpre & _)%extract_tool_names_elem_of.
    by apply startswith_spec.
Qed.

Lemma prefix_filter_witness :
  ∃ rest, lit "spectree__old" = lit "spectree__" ++ rest.
Proof.
  apply (proj1 prefix_filter [sample_path] sample_read (lit "spectree__old")).
  apply elem_of_dom. vm_compute. eauto.
Defined.

(** ** Records built from a match *)

Lemma slice_window (content : str) (a n : nat) :
  slice content a (a + n) = take n (drop a content).
Proof. unfold slice. f_equal. lia. Qed.

Lemma record_of_deprecated (content file_path : str) (m : rematch) :
  deprecated (record_of content file_path m) = true ↔
  occurs DEPRECATED (take 200 (drop (m_start m) content)) ∨
  occurs warning_glyph (take 200 (drop (m_start m) content)).
Proof.
  unfold record_of. cbn [deprecated].
  by rewrite slice_window, orb_true_iff, !contains_spec.
Qed.

Lemma record_of_description (content file_path : str) (m : rematch) :
  (length (group content m 2) ≤ 100 →
   description (record_of content file_path m) = group content m 2) ∧
  (100 < length (group content m 2) →
   description (record_of content file_path m) =
     take 100 (group content m 2) ++ lit "...").
Proof.
  unfold record_of. cbn [description].
  destruct (Nat.ltb_spec 100 (length (group content m 2))); split; try done; lia.
Qed.

(** C7: the stored description is the captured description field when
    that has at most 100 characters, and its first 100 characters
    followed by three dots otherwise.  This holds for the record stored
    when a match is processed and for every record of the final mapping. *)
Theorem description_excerpt :
  (∀ (content file_path : str) (tools : gmap str ToolRecord) (m : rematch),
     startswith (group content m 1) prefix_ns = true →
     ∃ t, process_match content file_path tools m !! group content m 1 = Some t ∧
          (length (group content m 2) ≤ 100 →
           description t = group content m 2) ∧
          (100 < length (group content m 2) →
           description t = take 100 (group content m 2) ++ lit "...")) ∧
  (∀ (tool_files : list str) (read : str → str) (id : str) (t : ToolRecord),
     extract_tools_from_source tool_files read !! id = Some t →
     ∃ p m, p ∈ tool_files ∧ m ∈ finditer register_pattern (read p) ∧
            group (read p) m 1 = id ∧
            (length (group (read p) m 2) ≤ 100 →
             description t = group (read p) m 2) ∧
            (100 < length (group (read p) m 2) →
             description t = take 100 (group (read p) m 2) ++ lit "...")).
Proof.
  split.
  - intros content file_path tools m Hpre.
    exists (record_of content file_path m). split.
    + unfold process_match. rewrite Hpre. apply lookup_insert_eq.
    + apply record_of_description.
  - intros tool_files read id t
      (p & m & ? & _ & ? & ? & _ & ->)%extract_tools_from_source_lookup.
    exists p, m. split_and!; [done.. | |]; apply record_of_description.
Qed.

Lemma description_excerpt_witness :
  ∃ t, extract_tools_from_source [sample_path] sample_read
         !! lit "spectree__long" = Some t ∧
       description t = replicate 100 120%N ++ lit "..." ∧
    ∃ p m, p ∈ [sample_path] ∧
           m ∈ finditer register_pattern (sample_read p) ∧
           group (sample_read p) m 1 = lit "spectree__long" ∧
           (length (group (sample_read p) m 2) ≤ 100 →
            description t = group (sample_read p) m 2) ∧
           (100 < length (group (sample_read p) m 2) →
            description t = take 100 (group (sample_read p) m 2) ++ lit "...").
Proof.
  eexists. split; [vm_compute; reflexivity|]. split; [vm_compute; reflexivity|].
  apply (proj2 description_excerpt [sample_path] sample_read).
  vm_compute; reflexivity.
Defined.

(** C10: the registration pattern accepts quotes that do not pair up.
    Both registrations of [mixed_content] are extracted, by the audit and
    by the listing of tool names. *)
Theorem mismatched_quotes_accepted :
  extract_tools_from_source [lit "a.ts"] (λ _, mixed_content) =
    <[lit "spectree__one" :=
        {| file := lit "a.ts"; deprecated := false;
           description := lit "first" |}]>
    (<[lit "spectree__two" :=
        {| file := lit "a.ts"; deprecated := false;
           description := lit "second" |}]> ∅) ∧
  map name (extract_tool_names [lit "a.ts"] (λ _, mixed_content)) =
    [lit "spectree__one"; lit "spectree__two"].
Proof. split; vm_compute; reflexivity. Qed.

(** ** The documentation extractor *)

Lemma foldl_append_mention (label : str) (names : list str)
    (doc_mentions : gmap str (list str)) (id : str) :
  NoDup names →
  foldl (append_mention label) doc_mentions names !! id =
  if decide (id ∈ names)
  then Some (default [] (doc_mentions !! id) ++ [label])
  else doc_mentions !! id.
Proof.
  intros Hnd. revert doc_mentions.
  induction Hnd as [|x names Hx Hnd IH]; intros doc_mentions; cbn [foldl].
  - rewrite decide_False; [done | apply not_elem_of_nil].
  - rewrite IH. unfold append_mention at 1 2.
    destruct (decide (id = x)) as [->|Hne].
    + rewrite (decide_False _ _ Hx), lookup_insert_eq, decide_True; [done | left].
    + rewrite lookup_insert_ne by done.
      destruct (decide (id ∈ names)) as [Hin|Hin].
      * rewrite decide_True; [done | by right].
      * rewrite decide_False; [done|]. by intros [?|?]%elem_of_cons.
Qed.

(** The order in which the set of matches is visited has no effect. *)
Lemma iteration_order_irrelevant (label : str) (matches order : list str)
    (doc_mentions : gmap str (list str)) :
  order ≡ₚ remove_dups matches →
  foldl (append_mention label) doc_mentions order =
  foldl (append_mention label) doc_mentions (remove_dups matches).
Proof.
  intros Hperm. apply map_eq. intros id.
  rewrite !foldl_append_mention;
    [|apply NoDup_remove_dups | rewrite Hperm; apply NoDup_remove_dups].
  destruct (decide (id ∈ order)) as [Hin|Hin]; rewrite Hperm in Hin.
  - by rewrite decide_True.
  - by rewrite decide_False.
Qed.

Lemma process_doc_lookup (read : str → str)
    (doc_mentions : gmap str (list str)) (doc_file id : str) :
  process_doc read doc_mentions doc_file !! id =
  if decide (mentions read id doc_file)
  then Some (default [] (doc_mentions !! id) ++ [path_name doc_file])
  else doc_mentions !! id.
Proof.
  unfold process_doc. rewrite foldl_append_mention by apply NoDup_remove_dups.
  unfold mentions.
  destruct (decide (id ∈ findall mention_pattern (read doc_file))) as [Hin|Hin].
  - rewrite decide_True; [done | by apply elem_of_remove_dups].
  - rewrite decide_False; [done | by rewrite elem_of_remove_dups].
Qed.

(** The labels recorded for an identifier: one for each document that
    mentions it, in the order in which the documents are processed. *)
Lemma foldl_process_doc_lookup (read : str → str) (docs : list str)
    (doc_mentions : gmap str (list str)) (id : str) :
  default [] (foldl (process_doc read) doc_mentions docs !! id) =
  default [] (doc_mentions !! id) ++
  (path_name <$> filter (mentions read id) docs).
Proof.
  revert doc_mentions. induction docs as [|d docs IH]; intros doc_mentions;
    cbn [foldl].
  - by rewrite app_nil_r.
  - rewrite IH, process_doc_lookup, filter_cons.
    destruct (decide (mentions read id d)); [|done].
    cbn. by rewrite <- app_assoc.
Qed.

Lemma extract_tools_from_docs_labels (doc_files : list str)
    (read : str → str) (id : str) :
  default [] (extract_tools_from_docs doc_files read !! id) =
  path_name <$> filter (mentions read id) (sorted doc_files).
Proof.
  unfold extract_tools_from_docs.
  by rewrite foldl_process_doc_lookup, lookup_empty.
Qed.

Lemma filter_eq_absent (l : list str) (x : str) :
  x ∉ l → filter (λ y, y = x) l = [].
Proof.
  induction l as [|y l IH]; [done|].
  intros [? ?]%not_elem_of_cons. rewrite filter_cons, decide_False; auto.
Qed.

Lemma NoDup_count_one (l : list str) (x : str) :
  NoDup l → x ∈ l → length (filter (λ y, y = x) l) = 1.
Proof.
  induction 1 as [|y l Hy Hnd IH]; [by intros ?%elem_of_nil|].
  rewrite filter_cons. intros [->|Hin]%elem_of_cons.
  - rewrite decide_True by done. by rewrite filter_eq_absent.
  - rewrite decide_False; [auto|]. intros ->. done.
Qed.

(** C9: the label of a processed document stands exactly once in the
    list recorded for each identifier the document mentions, however
    often the identifier occurs in it.  The labels are the file names of
    the listed documents, which are pairwise different. *)
Theorem doc_label_once (doc_files : list str) (read : str → str)
    (doc_file id : str) :
  NoDup (path_name <$> doc_files) →
  doc_file ∈ doc_files →
  id ∈ findall mention_pattern (read doc_file) →
  ∃ labels, extract_tools_from_docs doc_files read !! id = Some labels ∧
            length (filter (λ l, l = path_name doc_file) labels) = 1.
Proof.
  intros Hnd Hdoc Hid.
  pose proof (extract_tools_from_docs_labels doc_files read id) as Hl.
  assert (Hin : path_name doc_file ∈
                path_name <$> filter (mentions read id) (sorted doc_files)).
  { apply list_elem_of_fmap_2, list_elem_of_filter.
    split; [done | by apply sorted_elem_of]. }
  assert (Hnd' : NoDup (path_name <$> filter (mentions read id) (sorted doc_files))).
  { eapply sublist_NoDup; [|apply fmap_sublist, sublist_filter].
    by rewrite sorted_perm. }
  destruct (extract_tools_from_docs doc_files read !! id) as [labels|];
    cbn in Hl.
  - exists labels. split; [done|]. rewrite Hl. by apply NoDup_count_one.
  - rewrite <- Hl in Hin. by apply elem_of_nil in Hin.
Qed.

Lemma doc_label_once_witness :
  length (findall mention_pattern triple_doc) = 3 ∧
  ∃ labels,
    extract_tools_from_docs [lit "docs/mcp/tools.md"; lit "docs/mcp/api.md"]
      (λ _, triple_doc) !! lit "spectree__foo" = Some labels ∧
    length (filter (λ l, l = path_name (lit "docs/mcp/tools.md")) labels) = 1.
Proof.
  split; [vm_compute; reflexivity|].
  apply (doc_label_once [lit "docs/mcp/tools.md"; lit "docs/mcp/api.md"]
           (λ _, triple_doc) (lit "docs/mcp/tools.md") (lit "spectree__foo")).
  - apply (bool_decide_unpack _). vm_compute. exact I.
  - left.
  - vm_compute. left.
Defined.

(** ** Several files: the later file wins *)

Lemma foldl_process_match_union (content file_path : str)
    (ms : list rematch) (tools : gmap str ToolRecord) :
  foldl (process_match content file_path) tools ms =
  foldl (process_match content file_path) ∅ ms ∪ tools.
Proof.
  induction ms as [|m ms IH] using rev_ind.
  - cbn. by rewrite (left_id_L ∅ (∪)).
  - rewrite !foldl_snoc, IH. unfold process_match.
    destruct (startswith (group content m 1) prefix_ns); [|done].
    by rewrite insert_union_l.
Qed.

Lemma process_file_union (read : str → str) (tools : gmap str ToolRecord)
    (file_path : str) :
  process_file read tools file_path = file_tools read file_path ∪ tools.
Proof. apply foldl_process_match_union. Qed.

(** Files that do not register [id] leave its entry alone. *)
Lemma foldl_process_file_skip (read : str → str) (ps : list str)
    (tools : gmap str ToolRecord) (id : str) :
  (∀ q, q ∈ ps → file_tools read q !! id = None) →
  foldl (process_file read) tools ps !! id = tools !! id.
Proof.
  revert tools. induction ps as [|p ps IH]; intros tools Hps; cbn [foldl]; [done|].
  rewrite IH by (intros q Hq; apply Hps; by right).
  rewrite process_file_union, lookup_union_r; [done|]. apply Hps. left.
Qed.

Lemma foldl_process_file_last (read : str → str) (l1 l2 : list str)
    (p : str) (tools : gmap str ToolRecord) (id : str) :
  is_Some (file_tools read p !! id) →
  (∀ q, q ∈ l2 → file_tools read q !! id = None) →
  foldl (process_file read) tools (l1 ++ p :: l2) !! id =
  file_tools read p !! id.
Proof.
  intros [t Ht] Hl2. rewrite foldl_app. cbn [foldl].
  rewrite foldl_process_file_skip by done.
  rewrite process_file_union, Ht. by apply lookup_union_Some_l.
Qed.

(** A file registers an identifier exactly when one of its matches
    carries it and passes the prefix test. *)
Lemma foldl_process_match_is_Some (content file_path : str)
    (ms : list rematch) (tools : gmap str ToolRecord) (id : str) :
  is_Some (foldl (process_match content file_path) tools ms !! id) ↔
  is_Some (tools !! id) ∨
  ∃ m, m ∈ ms ∧ group content m 1 = id ∧ startswith id prefix_ns = true.
Proof.
  revert tools. induction ms as [|m ms IH]; intros tools; cbn [foldl].
  - split; [auto|]. intros [?|(m & Hm & _)]; [done | by apply elem_of_nil in Hm].
  - rewrite IH. unfold process_match at 1. split.
    + intros [Hs|(m' & ? & ?)].
      * destruct (startswith (group content m 1) prefix_ns) eqn:E; [|auto].
        destruct (decide (group content m 1 = id)) as [<-|Hne].
        -- right. exists m. split; [left | done].
        -- rewrite lookup_insert_ne in Hs by done. auto.
      * right. exists m'. split; [by right | done].
    + intros [Hs|(m' & [->|Hm']%elem_of_cons & <- & Hpre)].
      * left. destruct (startswith (group content m 1) prefix_ns); [|done].
        destruct (decide (group content m 1 = id)) as [<-|Hne].
        -- rewrite lookup_insert_eq. eauto.
        -- by rewrite lookup_insert_ne.
      * left. rewrite Hpre, lookup_insert_eq. eauto.
      * right. eauto.
Qed.

Lemma file_tools_is_Some (read : str → str) (file_path id : str) :
  is_Some (file_tools read file_path !! id) ↔
  ∃ m, m ∈ finditer register_pattern (read file_path) ∧
       group (read file_path) m 1 = id ∧ startswith id prefix_ns = true.
Proof.
  unfold file_tools, process_file. rewrite foldl_process_match_is_Some.
  rewrite lookup_empty. split; [|auto]. intros [[? ?]|?]; done.
Qed.

(** C6: the final mapping holds, for an identifier, the record of the
    file that comes last in sorted order among the files registering it. *)
Theorem later_file_wins (tool_files : list str) (read : str → str)
    (p id : str) :
  p ∈ tool_files →
  endswith p test_suffix = false →
  is_Some (file_tools read p !! id) →
  (∀ q, q ∈ tool_files → endswith q test_suffix = false →
        is_Some (file_tools read q !! id) → str_le q p) →
  extract_tools_from_source tool_files read !! id = file_tools read p !! id.
Proof.
  intros Hp Hts Hreg Hlast. unfold extract_tools_from_source.
  set (files := filter _ tool_files).
  assert (Hin : p ∈ sorted files).
  { apply sorted_elem_of, list_elem_of_filter. done. }
  apply list_elem_of_split_r in Hin as (l1 & l2 & Heq & Hnotin).
  pose proof (sorted_strongly files) as Hsorted. rewrite Heq in Hsorted.
  apply StronglySorted_app_1_r, StronglySorted_cons in Hsorted as [Hle _].
  rewrite Heq. apply foldl_process_file_last; [done|].
  intros q Hq. apply eq_None_not_Some. intros Hsome.
  assert (Hq' : q ∈ sorted files) by (rewrite Heq; set_solver).
  apply sorted_elem_of, list_elem_of_filter in Hq' as [? ?].
  assert (q = p); [|by subst].
  apply (anti_symm str_le); [by apply Hlast|].
  rewrite Forall_forall in Hle. by apply Hle.
Qed.

Lemma later_file_wins_witness :
  deprecated <$> file_tools ab_read (lit "a.ts") !! lit "spectree__dup" = Some true ∧
  deprecated <$> file_tools ab_read (lit "b.ts") !! lit "spectree__dup" = Some false ∧
  extract_tools_from_source [lit "b.ts"; lit "a.ts"] ab_read !! lit "spectree__dup" =
    file_tools ab_read (lit "b.ts") !! lit "spectree__dup".
Proof.
  split; [vm_compute; reflexivity|]. split; [vm_compute; reflexivity|].
  apply (later_file_wins [lit "b.ts"; lit "a.ts"] ab_read (lit "b.ts")
           (lit "spectree__dup")).
  - left.
  - vm_compute; reflexivity.
  - vm_compute. eauto.
  - intros q [->|[->|[]%elem_of_nil]%elem_of_cons]%elem_of_cons _ _;
      vm_compute; reflexivity.
Defined.

(** ** Which match a record is built from *)

(** The entry left by the loop over the matches of a file comes from the
    last match that carries the identifier. *)
Lemma foldl_process_match_lookup_last (content file_path : str)
    (ms : list rematch) (tools : gmap str ToolRecord) (id : str)
    (t : ToolRecord) :
  foldl (process_match content file_path) tools ms !! id = Some t →
  (tools !! id = Some t ∧
   ∀ m, m ∈ ms → group content m 1 = id → startswith id prefix_ns = false) ∨
  ∃ before m after,
    ms = before ++ m :: after ∧ group content m 1 = id ∧
    startswith id prefix_ns = true ∧ t = record_of content file_path m ∧
    ∀ m', m' ∈ after → group content m' 1 ≠ id.
Proof.
  revert tools. induction ms as [|m0 ms IH]; intros tools; cbn [foldl].
  - intros Ht. left. split; [done|]. by intros m ?%elem_of_nil.
  - intros [[Hnow Hnone]|(before & m & after & -> & ? & ? & ? & ?)]%IH.
    + unfold process_match in Hnow.
      destruct (startswith (group content m0 1) prefix_ns) eqn:Epre.
      * destruct (decide (group content m0 1 = id)) as [Hid|Hid].
        -- right. exists [], m0, ms. rewrite Hid in Hnow, Epre.
           rewrite lookup_insert_eq in Hnow. injection Hnow as <-.
           split_and!; [done..|].
           intros m' Hm' Hg. specialize (Hnone m' Hm' Hg). congruence.
        -- rewrite lookup_insert_ne in Hnow by done. left. split; [done|].
           intros m [->|Hm]%elem_of_cons Hg; [done | by apply (Hnone m)].
      * left. split; [done|].
        intros m [->|Hm]%elem_of_cons Hg; [by rewrite <- Hg | by apply (Hnone m)].
    + right. exists (m0 :: before), m, after. done.
Qed.

(** The entry left by the loop over the files comes from the last file
    that registers the identifier. *)
Lemma foldl_process_file_lookup_last (read : str → str) (ps : list str)
    (tools : gmap str ToolRecord) (id : str) (t : ToolRecord) :
  foldl (process_file read) tools ps !! id = Some t →
  (tools !! id = Some t ∧ ∀ q, q ∈ ps → file_tools read q !! id = None) ∨
  ∃ l1 p l2,
    ps = l1 ++ p :: l2 ∧ file_tools read p !! id = Some t ∧
    ∀ q, q ∈ l2 → file_tools read q !! id = None.
Proof.
  revert tools. induction ps as [|p0 ps IH]; intros tools; cbn [foldl].
  - intros Ht. left. split; [done|]. by intros q ?%elem_of_nil.
  - intros [[Hnow Hnone]|(l1 & p & l2 & -> & ? & ?)]%IH.
    + rewrite process_file_union in Hnow.
      destruct (file_tools read p0 !! id) as [r|] eqn:E.
      * right. exists [], p0, ps.
        rewrite (lookup_union_Some_l _ _ _ _ E) in Hnow. injection Hnow as <-.
        done.
      * rewrite lookup_union_r in Hnow by done. left. split; [done|].
        intros q [->|Hq]%elem_of_cons; [done | by apply Hnone].
    + right. exists (p0 :: l1), p, l2. done.
Qed.

Lemma str_le_refl (a : str) : str_le a a.
Proof. by destruct (total str_le a a). Qed.

(** Every record of the final mapping is built from the last match that
    carries its identifier, in the last file in sorted order that
    registers it. *)
Lemma extract_tools_from_source_lookup_last (tool_files : list str)
    (read : str → str) (id : str) (t : ToolRecord) :
  extract_tools_from_source tool_files read !! id = Some t →
  ∃ p before m after,
    p ∈ tool_files ∧ endswith p test_suffix = false ∧
    (∀ q, q ∈ tool_files → endswith q test_suffix = false →
          is_Some (file_tools read q !! id) → str_le q p) ∧
    finditer register_pattern (read p) = before ++ m :: after ∧
    group (read p) m 1 = id ∧
    (∀ m', m' ∈ after → group (read p) m' 1 ≠ id) ∧
    t = record_of (read p) p m.
Proof.
  unfold extract_tools_from_source. set (files := filter _ tool_files).
  intros [[Hempty _]|(l1 & p & l2 & Heq & Hp & Hl2)]%foldl_process_file_lookup_last;
    [by rewrite lookup_empty in Hempty|].
  assert (Hin : p ∈ sorted files) by (rewrite Heq; set_solver).
  rewrite sorted_elem_of in Hin. apply list_elem_of_filter in Hin as [Hts Hin].
  unfold file_tools, process_file in Hp.
  apply foldl_process_match_lookup_last in Hp
    as [[Hempty _]|(before & m & after & Hms & Hg & _ & Ht & Hafter)];
    [by rewrite lookup_empty in Hempty|].
  exists p, before, m, after. split_and!; [done | done | | done..].
  intros q Hq Hqts Hreg.
  assert (Hq' : q ∈ sorted files)
    by (by apply sorted_elem_of, list_elem_of_filter).
  pose proof (sorted_strongly files) as Hsorted. rewrite Heq in Hsorted, Hq'.
  apply elem_of_app in Hq' as [Hq'|[->|Hq']%elem_of_cons].
  - eapply StronglySorted_app_1_elem_of; [exact Hsorted | done | left].
  - apply str_le_refl.
  - rewrite (Hl2 q Hq') in Hreg. by destruct Hreg.
Qed.

(** C4: a record is marked deprecated exactly when the marker DEPRECATED
    or the warning glyph occurs within the 200 characters that begin at
    the start of the match it is built from.  This holds for the record
    stored when a match is processed, and for every record of the final
    mapping, which is the record of the last match carrying the
    identifier in the last file, in sorted order, that registers it. *)
Theorem deprecated_window :
  (∀ (content file_path : str) (tools : gmap str ToolRecord) (m : rematch),
     startswith (group content m 1) prefix_ns = true →
     ∃ t, process_match content file_path tools m !! group content m 1 = Some t ∧
          (deprecated t = true ↔
           occurs DEPRECATED (take 200 (drop (m_start m) content)) ∨
           occurs warning_glyph (take 200 (drop (m_start m) content)))) ∧
  (∀ (tool_files : list str) (read : str → str) (id : str) (t : ToolRecord),
     extract_tools_from_source tool_files read !! id = Some t →
     ∃ p before m after,
       p ∈ tool_files ∧ endswith p test_suffix = false ∧
       (∀ q, q ∈ tool_files → endswith q test_suffix = false →
             is_Some (file_tools read q !! id) → str_le q p) ∧
       finditer register_pattern (read p) = before ++ m :: after ∧
       group (read p) m 1 = id ∧
       (∀ m', m' ∈ after → group (read p) m' 1 ≠ id) ∧
       t = record_of (read p) p m ∧
       file t = p ∧
       (deprecated t = true ↔
        occurs DEPRECATED (take 200 (drop (m_start m) (read p))) ∨
        occurs warning_glyph (take 200 (drop (m_start m) (read p))))).
Proof.
  split.
  - intros content file_path tools m Hpre.
    exists (record_of content file_path m). split.
    + unfold process_match. rewrite Hpre. apply lookup_insert_eq.
    + apply record_of_deprecated.
  - intros tool_files read id t
      (p & before & m & after & ? & ? & ? & ? & ? & ? & ->)%extract_tools_from_source_lookup_last.
    exists p, before, m, after.
    split_and!; [done.. | apply record_of_deprecated].
Qed.

(** In [twice_content] the first registration of the tool holds the
    marker and the second does not: the record is the second one's. *)
Lemma deprecated_window_witness :
  ∃ t, extract_tools_from_source [lit "a.ts"] (λ _, twice_content)
         !! lit "spectree__twice" = Some t ∧
       deprecated t = false ∧
    ∃ p before m after,
      p ∈ [lit "a.ts"] ∧ endswith p test_suffix = false ∧
      (∀ q, q ∈ [lit "a.ts"] → endswith q test_suffix = false →
            is_Some (file_tools (λ _, twice_content) q !! lit "spectree__twice") →
            str_le q p) ∧
      finditer register_pattern twice_content = before ++ m :: after ∧
      group twice_content m 1 = lit "spectree__twice" ∧
      (∀ m', m' ∈ after → group twice_content m' 1 ≠ lit "spectree__twice") ∧
      t = record_of twice_content p m ∧
      file t = p ∧
      (deprecated t = true ↔
       occurs DEPRECATED (take 200 (drop (m_start m) twice_content)) ∨
       occurs warning_glyph (take 200 (drop (m_start m) twice_content))).
Proof.
  eexists. split; [vm_compute; reflexivity|]. split; [reflexivity|].
  apply (proj2 deprecated_window [lit "a.ts"] (λ _, twice_content)).
  vm_compute; reflexivity.
Defined.

(** ** [extract-tool-names.py]: the deprecation flag *)

Lemma occurs_nil (s : str) : occurs [] s.
Proof. by exists [], s. Qed.

Lemma occurs_slice (s : str) (a b : nat) : occurs (slice s a b) s.
Proof.
  unfold slice. exists (take a s), (drop (b - a) (drop a s)).
  by rewrite take_drop, take_drop.
Qed.

Lemma occurs_group (content : str) (m : rematch) (k : nat) :
  occurs (group content m k) content.
Proof.
  unfold group.
  destruct (reverse (m_caps m) !! (2 * (k - 1))),
    (reverse (m_caps m) !! (2 * (k - 1) + 1));
    auto using occurs_nil, occurs_slice.
Qed.

(** [content[:content.find(sub)]] is the text before the first occurrence
    of [sub], whenever [sub] occurs at all. *)
Lemma slice_to_find (content sub : str) :
  occurs sub content →
  ∃ before after,
    content = before ++ sub ++ after ∧
    (∀ b' a', content = b' ++ sub ++ a' → length before ≤ length b') ∧
    find content sub = Z.of_nat (length before) ∧
    slice_to content (find content sub) = before.
Proof.
  intros Hocc. unfold find.
  destruct (find_from sub content 0) as [k|] eqn:E.
  - apply find_from_Some in E as (before & after & Heq & -> & Hmin).
    exists before, after. split_and!; [done.. |].
    unfold slice_to. cbn [Nat.add].
    destruct (Z.ltb_spec (Z.of_nat (length before)) 0); [lia|].
    rewrite Nat2Z.id, Heq. by rewrite take_app_length.
  - by apply find_from_None in E.
Qed.

(** C5: [extract-tool-names.py] marks a tool deprecated exactly when the
    marker DEPRECATED occurs in the text that precedes the first
    occurrence of the tool's name in the file. *)
Theorem name_deprecated_before (tool_files : list str) (read : str → str)
    (e : NameEntry) :
  e ∈ extract_tool_names tool_files read →
  ∃ before after,
    read (name_file e) = before ++ name e ++ after ∧
    (∀ b' a', read (name_file e) = b' ++ name e ++ a' →
              length before ≤ length b') ∧
    (name_deprecated e = true ↔ occurs DEPRECATED before).
Proof.
  intros (_ & Hin & _ & Hdep)%extract_tool_names_elem_of.
  apply list_elem_of_fmap in Hin as (m & Hname & _).
  destruct (slice_to_find (read (name_file e)) (name e))
    as (before & after & Heq & Hmin & _ & Hslice).
  { rewrite Hname. apply occurs_group. }
  exists before, after. split_and!; [done.. |].
  by rewrite Hdep, Hslice, contains_spec.
Qed.

Lemma name_deprecated_before_witness :
  deprecated <$> extract_tools_from_source [lit "a.ts"] (λ _, commented_content)
    !! lit "spectree__new" = Some false ∧
  ∃ before after,
    commented_content = before ++ lit "spectree__new" ++ after ∧
    (∀ b' a', commented_content = b' ++ lit "spectree__new" ++ a' →
              length before ≤ length b') ∧
    (true = true ↔ occurs DEPRECATED before).
Proof.
  split; [vm_compute; reflexivity|].
  apply (name_deprecated_before [lit "a.ts"] (λ _, commented_content)
           {| name := lit "spectree__new"; name_file := lit "a.ts";
              name_deprecated := true |}).
  vm_compute. left.
Defined.

(** ** The matcher on texts of the registered shape *)

Lemma rmatch_one (c : N → bool) (r : regex) (pos : nat) (x : N) (s : str)
    (caps : list nat) :
  c x = true →
  rmatch (One c :: r) pos (x :: s) caps = rmatch r (S pos) s caps.
Proof. intros Hc. cbn. by rewrite Hc. Qed.

Lemma rmatch_chars (l : str) (r : regex) (pos : nat) (s : str)
    (caps : list nat) :
  rmatch (map (λ a, One (chr a)) l ++ r) pos (l ++ s) caps =
  rmatch r (pos + length l) s caps.
Proof.
  revert pos. induction l as [|a l IH]; intros pos; cbn [map app length].
  - by rewrite Nat.add_0_r.
  - rewrite rmatch_one by (by apply bool_decide_eq_true).
    rewrite IH. f_equal. lia.
Qed.

Lemma rmatch_literal (lt : string) (r : regex) (pos : nat) (s : str)
    (caps : list nat) :
  rmatch (literal lt ++ r) pos (lit lt ++ s) caps =
  rmatch r (pos + length (lit lt)) s caps.
Proof. apply rmatch_chars. Qed.

Lemma rmatch_greedy_cons (c : N → bool) (r : regex) (pos : nat) (x : N)
    (s : str) (caps : list nat) :
  rmatch (Star Greedy c :: r) pos (x :: s) caps =
  if c x then
    match rmatch (Star Greedy c :: r) (S pos) s caps with
    | Some res => Some res
    | None => rmatch r pos (x :: s) caps
    end
  else rmatch r pos (x :: s) caps.
Proof. reflexivity. Qed.

Lemma rmatch_greedy_nil (c : N → bool) (r : regex) (pos : nat)
    (caps : list nat) :
  rmatch (Star Greedy c :: r) pos [] caps = rmatch r pos [] caps.
Proof. reflexivity. Qed.

Lemma rmatch_lazy (c : N → bool) (r : regex) (pos : nat) (s : str)
    (caps : list nat) :
  rmatch (Star Lazy c :: r) pos s caps =
  match rmatch r pos s caps with
  | Some res => Some res
  | None =>
      match s with
      | x :: s' => if c x then rmatch (Star Lazy c :: r) (S pos) s' caps else None
      | [] => None
      end
  end.
Proof. destruct s; reflexivity. Qed.

(** A greedy star that can take a whole run and is followed by a
    successful rest takes the whole run. *)
Lemma rmatch_greedy_run (c : N → bool) (r : regex) (run : str) (pos : nat)
    (s : str) (caps : list nat) (res : nat * list nat) :
  Forall (λ x, c x = true) run →
  rmatch (Star Greedy c :: r) (pos + length run) s caps = Some res →
  rmatch (Star Greedy c :: r) pos (run ++ s) caps = Some res.
Proof.
  intros Hrun. revert pos. induction Hrun as [|x run Hx Hrun IH]; intros pos;
    cbn [app length].
  - by rewrite Nat.add_0_r.
  - intros Hres. rewrite rmatch_greedy_cons, Hx, (IH (S pos)); [done|].
    rewrite <- Hres. f_equal. lia.
Qed.

(** At a character outside the class the star takes nothing. *)
Lemma rmatch_greedy_stop (c : N → bool) (r : regex) (pos : nat) (x : N)
    (s : str) (caps : list nat) :
  c x = false →
  rmatch (Star Greedy c :: r) pos (x :: s) caps = rmatch r pos (x :: s) caps.
Proof. intros Hx. by rewrite rmatch_greedy_cons, Hx. Qed.

Lemma rmatch_greedy_total (c : N → bool) (r : regex) (pos : nat) (s : str)
    (caps : list nat) :
  (∀ pos s, is_Some (rmatch r pos s caps)) →
  is_Some (rmatch (Star Greedy c :: r) pos s caps).
Proof.
  intros Hr. revert pos. induction s as [|x s IH]; intros pos.
  - rewrite rmatch_greedy_nil. apply Hr.
  - rewrite rmatch_greedy_cons. destruct (c x); [|apply Hr].
    destruct (IH (S pos)) as [res ->]. eauto.
Qed.

(** A lazy star reaches a later point where the rest matches, unless the
    rest matches earlier. *)
Lemma rmatch_lazy_run (c : N → bool) (r : regex) (run : str) (pos : nat)
    (s : str) (caps : list nat) :
  Forall (λ x, c x = true) run →
  is_Some (rmatch r (pos + length run) s caps) →
  is_Some (rmatch (Star Lazy c :: r) pos (run ++ s) caps).
Proof.
  intros Hrun. revert pos. induction Hrun as [|x run Hx Hrun IH]; intros pos;
    cbn [app length].
  - rewrite Nat.add_0_r. intros [res Hres]. rewrite rmatch_lazy, Hres. eauto.
  - intros Hres. rewrite rmatch_lazy.
    destruct (rmatch r pos (x :: run ++ s) caps); [eauto|].
    rewrite Hx. apply IH. by replace (S pos + length run) with (pos + S (length run)) by lia.
Qed.

(** Group boundaries are only ever added in front. *)
Lemma rmatch_caps (r : regex) (pos : nat) (s : str) (caps : list nat)
    (e : nat) (caps' : list nat) :
  rmatch r pos s caps = Some (e, caps') → ∃ new, caps' = new ++ caps.
Proof.
  revert pos s caps. induction r as [|[c|[] c|] r IH]; intros pos s caps.
  - intros [= <- <-]. by exists [].
  - destruct s as [|x s]; [done|]. cbn. destruct (c x); [apply IH | done].
  - revert pos. induction s as [|x s IHs]; intros pos.
    + rewrite rmatch_greedy_nil. apply IH.
    + rewrite rmatch_greedy_cons. destruct (c x); [|apply IH].
      destruct (rmatch (Star Greedy c :: r) (S pos) s caps) as [res|] eqn:E.
      * intros [= ->]. by apply IHs in E.
      * apply IH.
  - revert pos. induction s as [|x s IHs]; intros pos; rewrite rmatch_lazy.
    + destruct (rmatch r pos [] caps) as [res|] eqn:E; [|done].
      intros [= ->]. by apply IH in E.
    + destruct (rmatch r pos (x :: s) caps) as [res|] eqn:E.
      * intros [= ->]. by apply IH in E.
      * destruct (c x); [apply IHs | done].
  - cbn. intros (new & ->)%IH. exists (new ++ [pos]). by rewrite <- app_assoc.
Qed.

(** A match ends inside the text it was tried on. *)
Lemma rmatch_end (r : regex) (pos : nat) (s : str) (caps : list nat)
    (e : nat) (caps' : list nat) :
  rmatch r pos s caps = Some (e, caps') → pos ≤ e ≤ pos + length s.
Proof.
  revert pos s caps. induction r as [|[c|[] c|] r IH]; intros pos s caps.
  - intros [= <- <-]. lia.
  - destruct s as [|x s]; [done|]. cbn. destruct (c x); [|done].
    intros ?%IH. lia.
  - revert pos. induction s as [|x s IHs]; intros pos.
    + rewrite rmatch_greedy_nil. apply IH.
    + rewrite rmatch_greedy_cons. destruct (c x); [|apply IH].
      destruct (rmatch (Star Greedy c :: r) (S pos) s caps) as [res|] eqn:E.
      * intros [= ->]. apply IHs in E. cbn. lia.
      * apply IH.
  - revert pos. induction s as [|x s IHs]; intros pos; rewrite rmatch_lazy.
    + destruct (rmatch r pos [] caps) as [res|] eqn:E; [|done].
      intros [= ->]. by apply IH in E.
    + destruct (rmatch r pos (x :: s) caps) as [res|] eqn:E.
      * intros [= ->]. by apply IH in E.
      * destruct (c x); [|done]. intros ?%IHs. cbn. lia.
  - cbn. apply IH.
Qed.

Lemma rmatch_nonempty (c : N → bool) (r : regex) (pos : nat) (s : str)
    (caps : list nat) (e : nat) (caps' : list nat) :
  rmatch (One c :: r) pos s caps = Some (e, caps') → pos < e.
Proof.
  destruct s as [|x s]; [done|]. cbn. destruct (c x); [|done].
  intros ?%rmatch_end. lia.
Qed.

Lemma patterns_nonempty (r : regex) (pos : nat) (s : str) (caps : list nat)
    (e : nat) (caps' : list nat) :
  r ∈ [register_pattern; name_pattern; mention_pattern] →
  rmatch r pos s caps = Some (e, caps') → pos < e.
Proof.
  intros Hr. repeat (apply elem_of_cons in Hr as [->|Hr]);
    [apply rmatch_nonempty.. | by apply elem_of_nil in Hr].
Qed.

(** ** Which positions [finditer] reports *)

(** A position at which the pattern matches is reported, unless it lies
    inside a match that began earlier. *)
Lemma finditer_aux_complete (r : regex) (s1 s2 : str) (skip pos e : nat)
    (caps : list nat) :
  s2 ≠ [] →
  rmatch r (pos + length s1) s2 [] = Some (e, caps) →
  Match (pos + length s1) e caps ∈ finditer_aux r skip pos (s1 ++ s2) ∨
  length s1 < skip ∨
  ∃ m, m ∈ finditer_aux r skip pos (s1 ++ s2) ∧
       m_start m < pos + length s1 < m_end m.
Proof.
  intros Hs2. revert skip pos.
  induction s1 as [|y s1 IH]; intros skip pos; cbn [app length].
  - rewrite Nat.add_0_r. intros Hm.
    destruct s2 as [|x s2]; [done|]. cbn [finditer_aux].
    destruct skip as [|k]; [|right; left; lia].
    rewrite Hm. left. left.
  - intros Hm. replace (pos + S (length s1)) with (S pos + length s1) in * by lia.
    cbn [finditer_aux]. destruct skip as [|k].
    + destruct (rmatch r pos (y :: s1 ++ s2) []) as [[e' caps']|] eqn:E.
      * destruct (IH (e' - pos - 1) (S pos) Hm) as [Hin|[Hlt|(m & Hin & ?)]].
        -- left. by right.
        -- right. right. exists (Match pos e' caps').
           split; [left | cbn; lia].
        -- right. right. exists m. split; [by right | done].
      * destruct (IH 0 (S pos) Hm) as [Hin|[Hlt|(m & Hin & ?)]];
          [by left | lia | right; right; eauto].
    + destruct (IH k (S pos) Hm) as [Hin|[Hlt|(m & Hin & ?)]];
        [by left | right; left; lia | right; right; eauto].
Qed.

Lemma finditer_complete (r : regex) (pre s : str) (e : nat) (caps : list nat) :
  s ≠ [] →
  rmatch r (length pre) s [] = Some (e, caps) →
  Match (length pre) e caps ∈ finditer r (pre ++ s) ∨
  ∃ m, m ∈ finditer r (pre ++ s) ∧ m_start m < length pre < m_end m.
Proof.
  intros Hs Hm.
  destruct (finditer_aux_complete r pre s 0 0 e caps Hs Hm)
    as [?|[?|?]]; [by left | lia | by right].
Qed.

(** ** Registrations of the shape the pattern is written for *)

Lemma rmatch_save (r : regex) (pos : nat) (s : str) (caps : list nat) :
  rmatch (Save :: r) pos s caps = rmatch r pos s (pos :: caps).
Proof. reflexivity. Qed.

Lemma register_pattern_split : register_pattern = name_pattern ++ tail_pattern.
Proof. reflexivity. Qed.

Lemma Forall_not_quote (l : str) :
  Forall (λ x, is_quote x = false) l → Forall (λ x, not_quote x = true) l.
Proof.
  intros H. eapply Forall_impl; [exact H|].
  intros x Hx. unfold not_quote. by rewrite Hx.
Qed.

Lemma is_quote_not_space (q : N) : is_quote q = true → is_space q = false.
Proof.
  unfold is_quote. intros [->%bool_decide_eq_true| ->%bool_decide_eq_true]%orb_true_iff;
    reflexivity.
Qed.

(** The head of the pattern on the head of a registration. *)
Lemma name_pattern_match (r : regex) (ws1 : str) (q1 : N) (id : str) (q2 : N)
    (s : str) (pos : nat) (res : nat * list nat) :
  Forall (λ x, is_space x = true) ws1 →
  is_quote q1 = true → is_quote q2 = true →
  id ≠ [] → Forall (λ x, is_quote x = false) id →
  rmatch r (pos + 20 + length ws1 + 1 + length id + 1) s
    [pos + 20 + length ws1 + 1 + length id; pos + 20 + length ws1 + 1] = Some res →
  rmatch (name_pattern ++ r) pos
    (lit "server.registerTool(" ++ ws1 ++ [q1] ++ id ++ [q2] ++ s) [] = Some res.
Proof.
  intros Hws Hq1 Hq2 Hid Hnq Hres.
  destruct id as [|i id]; [done|]. apply Forall_cons in Hnq as [Hi Hnq].
  unfold name_pattern. rewrite <- !app_assoc, rmatch_literal.
  change (length (lit "server.registerTool(")) with 20.
  cbn [app plus].
  apply rmatch_greedy_run; [done|].
  rewrite rmatch_greedy_stop by (by apply is_quote_not_space).
  rewrite rmatch_one by done. rewrite rmatch_save.
  rewrite rmatch_one by (unfold not_quote; by rewrite Hi).
  apply rmatch_greedy_run; [by apply Forall_not_quote|].
  rewrite rmatch_greedy_stop by (unfold not_quote; by rewrite Hq2).
  rewrite rmatch_save, rmatch_one by done.
  rewrite <- Hres. cbn [length]. f_equal; [lia|].
  f_equal; [lia|]. f_equal. lia.
Qed.

(** The rest of the pattern always finds a description after a
    registration's comma. *)
Lemma tail_pattern_match (ws2 filler ws3 : str) (q3 d : N) (s : str)
    (pos : nat) (caps : list nat) :
  Forall (λ x, is_space x = true) ws2 →
  Forall (λ x, is_space x = true) ws3 →
  Forall (λ x, x ≠ 125%N) filler →
  is_quote q3 = true → is_quote d = false →
  is_Some (rmatch tail_pattern pos
    (lit "," ++ ws2 ++ lit "{" ++ filler ++ lit "description:" ++ ws3 ++
     [q3] ++ d :: s) caps).
Proof.
  intros Hws2 Hws3 Hfill Hq3 Hd.
  unfold tail_pattern. rewrite rmatch_literal. cbn [app].
  assert (Hbody : ∀ pos', is_Some (rmatch
      (Star Lazy not_rbrace :: literal "description:" ++
        [Star Greedy is_space; One is_quote; Save] ++ plus not_quote ++ [Save])
      pos' (filler ++ lit "description:" ++ ws3 ++ [q3] ++ d :: s) caps)).
  { intros pos'. apply rmatch_lazy_run.
    { eapply Forall_impl; [exact Hfill|]. intros x Hx. unfold not_rbrace.
      by rewrite bool_decide_eq_false_2. }
    rewrite rmatch_literal. cbn [app plus].
    assert (Hend : ∀ pos'', is_Some (rmatch
        [Star Greedy is_space; One is_quote; Save; One not_quote;
         Star Greedy not_quote; Save] pos'' (q3 :: d :: s) caps)).
    { intros pos''.
      rewrite rmatch_greedy_stop by (by apply is_quote_not_space).
      rewrite rmatch_one by done. rewrite rmatch_save.
      rewrite rmatch_one by (unfold not_quote; by rewrite Hd).
      apply rmatch_greedy_total. intros ? ?. rewrite rmatch_save. cbn. eauto. }
    destruct (Hend (pos' + length filler + length (lit "description:") + length ws3))
      as [res Hres].
    exists res. apply rmatch_greedy_run; [done|].
    rewrite <- Hres. f_equal; lia. }
  destruct (Hbody (pos + length (lit ",") + length ws2 + 1)) as [res Hres].
  exists res. apply rmatch_greedy_run; [done|].
  change (lit "{") with [123%N]. change (literal "{") with [One (chr 123%N)].
  cbn [app]. rewrite rmatch_greedy_stop by reflexivity.
  rewrite rmatch_one by reflexivity. rewrite <- Hres. f_equal; lia.
Qed.

(** The pattern matches at the start of a well-formed registration, and
    its first group is the identifier. *)
Lemma register_pattern_match (g : Registration) (rest : str) (pos : nat) :
  reg_wf g →
  ∃ e new,
    rmatch register_pattern pos (reg_text g ++ rest) [] =
    Some (e, new ++ [pos + 20 + length (reg_ws1 g) + 1 + length (reg_id g);
                     pos + 20 + length (reg_ws1 g) + 1]).
Proof.
  intros [Hws1 Hws2 Hws3 Hq1 Hq2 Hq3 Hq4 [Hid Hnq] [Hdesc Hdq] Hfill].
  destruct (reg_desc g) as [|d desc] eqn:Ed; [done|].
  apply Forall_cons in Hdq as [Hd _].
  destruct (tail_pattern_match (reg_ws2 g) (reg_filler g) (reg_ws3 g)
              (reg_q3 g) d (desc ++ [reg_q4 g] ++ rest)
              (pos + 20 + length (reg_ws1 g) + 1 + length (reg_id g) + 1)
              [pos + 20 + length (reg_ws1 g) + 1 + length (reg_id g);
               pos + 20 + length (reg_ws1 g) + 1])
    as [[e caps] Hres]; [done..|].
  destruct (rmatch_caps _ _ _ _ _ _ Hres) as [new ->].
  exists e, new. rewrite register_pattern_split.
  unfold reg_text. rewrite Ed, <- !app_assoc.
  apply name_pattern_match; try done.
Qed.

Lemma group1_of_caps (content : str) (s e a b : nat) (new : list nat) :
  group content (Match s e (new ++ [b; a])) 1 = slice content a b.
Proof.
  unfold group. cbn [m_caps]. rewrite reverse_app. reflexivity.
Qed.

Lemma slice_middle (l1 l2 l3 : str) :
  slice (l1 ++ l2 ++ l3) (length l1) (length l1 + length l2) = l2.
Proof.
  unfold slice. rewrite drop_app_length.
  replace (length l1 + length l2 - length l1) with (length l2) by lia.
  by rewrite take_app_length.
Qed.

Lemma foldl_process_file_is_Some (read : str → str) (ps : list str)
    (tools : gmap str ToolRecord) (p id : str) :
  p ∈ ps → is_Some (file_tools read p !! id) →
  is_Some (foldl (process_file read) tools ps !! id).
Proof.
  intros Hp Hreg. apply list_elem_of_split in Hp as (l1 & l2 & ->).
  rewrite foldl_app. cbn [foldl].
  generalize (foldl (process_file read) tools l1). intros tools'.
  assert (Hnow : is_Some (process_file read tools' p !! id)).
  { rewrite process_file_union, lookup_union_l'; done. }
  revert Hnow. generalize (process_file read tools' p). clear.
  induction l2 as [|q l2 IH]; intros tools Hs; cbn [foldl]; [done|].
  apply IH. rewrite process_file_union, lookup_union.
  destruct Hs as [t ->]. destruct (file_tools read q !! id); cbn; eauto.
Qed.

Lemma extract_tools_from_source_is_Some (tool_files : list str)
    (read : str → str) (p id : str) :
  p ∈ tool_files → endswith p test_suffix = false →
  is_Some (file_tools read p !! id) →
  is_Some (extract_tools_from_source tool_files read !! id).
Proof.
  intros Hp Hts Hreg. apply (foldl_process_file_is_Some read _ _ p); [|done].
  by apply sorted_elem_of, list_elem_of_filter.
Qed.

(** C3, as the code has it: a file that holds a well-formed registration
    whose identifier carries the prefix yields a record for it, provided
    no match of the pattern that begins earlier in the file reaches over
    the start of the registration. *)
Theorem registration_recognized (tool_files : list str) (read : str → str)
    (p pre rest : str) (g : Registration) :
  p ∈ tool_files →
  endswith p test_suffix = false →
  read p = pre ++ reg_text g ++ rest →
  reg_wf g →
  (∃ suffix, reg_id g = lit "spectree__" ++ suffix) →
  (∀ m, m ∈ finditer register_pattern (read p) →
        m_start m < length pre → m_end m ≤ length pre) →
  is_Some (extract_tools_from_source tool_files read !! reg_id g).
Proof.
  intros Hp Hts Hread Hwf Hpre Hfree.
  apply (extract_tools_from_source_is_Some _ _ p); [done..|].
  apply file_tools_is_Some.
  destruct (register_pattern_match g rest (length pre) Hwf) as (e & new & Hm).
  destruct (finditer_complete register_pattern pre (reg_text g ++ rest) _ _
              ltac:(done) Hm) as [Hin|(m & Hin & Hlt & Hgt)].
  - eexists. rewrite Hread. split; [exact Hin|]. split.
    + rewrite group1_of_caps.
      replace (length pre + 20 + length (reg_ws1 g) + 1) with
        (length (pre ++ lit "server.registerTool(" ++ reg_ws1 g ++ [reg_q1 g]))
        by (rewrite !length_app; cbn; lia).
      unfold reg_text.
      replace (pre ++ (lit "server.registerTool(" ++ reg_ws1 g ++ [reg_q1 g] ++
                 reg_id g ++ [reg_q2 g] ++ lit "," ++ reg_ws2 g ++ lit "{" ++
                 reg_filler g ++ lit "description:" ++ reg_ws3 g ++ [reg_q3 g] ++
                 reg_desc g ++ [reg_q4 g]) ++ rest)
        with ((pre ++ lit "server.registerTool(" ++ reg_ws1 g ++ [reg_q1 g]) ++
              reg_id g ++ ([reg_q2 g] ++ lit "," ++ reg_ws2 g ++ lit "{" ++
                 reg_filler g ++ lit "description:" ++ reg_ws3 g ++ [reg_q3 g] ++
                 reg_desc g ++ [reg_q4 g] ++ rest))
        by (by rewrite <- !app_assoc).
      apply slice_middle.
    + by apply startswith_spec.
  - rewrite <- Hread in Hin. specialize (Hfree m Hin Hlt). lia.
Qed.

Lemma registration_recognized_witness :
  is_Some (extract_tools_from_source [lit "tools/search.ts"]
             (λ _, spaced_content) !! lit "spectree__search").
Proof.
  apply (registration_recognized [lit "tools/search.ts"] (λ _, spaced_content)
           (lit "tools/search.ts") (lit "// tools
") (lit " });") spaced_registration).
  - left.
  - vm_compute; reflexivity.
  - reflexivity.
  - split; try (vm_compute; reflexivity);
      try (split; [done|]); apply (bool_decide_unpack _); vm_compute; exact I.
  - by exists (lit "search").
  - intros m Hm Hlt. vm_compute in Hm.
    apply list_elem_of_singleton in Hm. subst m. cbn in Hlt. lia.
Defined.

(** C3, as the claim states it, fails: the registration of
    [shadowed_content] is well formed and carries the prefix, and the match
    that begins in the comment above it takes it in.  A closing brace
    before the description stops the pattern as well. *)
Lemma registration_shadowed :
  ¬ (∀ (tool_files : list str) (read : str → str) (p pre rest : str)
       (g : Registration),
       p ∈ tool_files →
       endswith p test_suffix = false →
       read p = pre ++ reg_text g ++ rest →
       reg_wf g →
       (∃ suffix, reg_id g = lit "spectree__" ++ suffix) →
       is_Some (extract_tools_from_source tool_files read !! reg_id g)) ∧
  extract_tools_from_source [lit "a.ts"] (λ _, nested_content) = ∅.
Proof.
  split; [|vm_compute; reflexivity].
  intros H.
  specialize (H [lit "a.ts"] (λ _, shadowed_content) (lit "a.ts")
                shadowed_prefix (lit " });") shadowed_registration).
  destruct H as [t Ht].
  - left.
  - vm_compute; reflexivity.
  - reflexivity.
  - split; try (vm_compute; reflexivity);
      try (split; [done|]); apply (bool_decide_unpack _); vm_compute; exact I.
  - by exists (lit "a").
  - vm_compute in Ht. discriminate.
Qed.

(** * Further properties of the scripts *)

(** ** The report of the audit *)

Lemma StronglySorted_filter_str (P : str → Prop) `{∀ x, Decision (P x)}
    (l : list str) :
  StronglySorted str_le l → StronglySorted str_le (filter P l).
Proof.
  induction 1 as [|x l Hl IH Hx]; [constructor|].
  rewrite filter_cons. destruct (decide (P x)); [|done].
  constructor; [done|]. rewrite Forall_forall in *.
  intros y [_ Hy]%list_elem_of_filter. by apply Hx.
Qed.

(** X1: The three lists of the report come out in lexicographic order. *)
Theorem report_lists_sorted (src : gmap str ToolRecord)
    (docs : gmap str (list str)) :
  StronglySorted str_le (not_in_source (audit src docs)) ∧
  StronglySorted str_le (deprecated_in_docs (audit src docs)) ∧
  StronglySorted str_le (not_documented (audit src docs)).
Proof.
  rewrite not_in_source_filter, deprecated_in_docs_filter, not_documented_filter.
  split_and!; apply StronglySorted_filter_str, sorted_strongly.
Qed.

Lemma NoDup_length_size (l : list str) (X : gset str) :
  NoDup l → (∀ x, x ∈ l ↔ x ∈ X) → length l = size X.
Proof.
  intros Hnd Hl. unfold size, set_size. cbn. apply Permutation_length.
  apply NoDup_Permutation; [done | apply NoDup_elements|].
  intros x. by rewrite Hl, elem_of_elements.
Qed.

Lemma length_not_in_source (src : gmap str ToolRecord)
    (docs : gmap str (list str)) :
  length (not_in_source (audit src docs)) = size (dom docs ∖ dom src).
Proof.
  apply NoDup_length_size.
  - rewrite not_in_source_filter. apply NoDup_filter, keys_NoDup.
  - intros k. rewrite elem_of_not_in_source. set_solver.
Qed.

Lemma length_not_documented (src : gmap str ToolRecord)
    (docs : gmap str (list str)) :
  length (not_documented (audit src docs)) = size (dom src ∖ dom docs).
Proof.
  apply NoDup_length_size.
  - rewrite not_documented_filter. apply NoDup_filter, keys_NoDup.
  - intros k. rewrite elem_of_not_documented. set_solver.
Qed.

(** X2: The counts of the report balance: the tools in the source plus the
    names only the documents know are as many as the names in the
    documents plus the undocumented tools. *)
Theorem report_counts_balance (src : gmap str ToolRecord)
    (docs : gmap str (list str)) :
  source_count (audit src docs) + length (not_in_source (audit src docs)) =
  doc_count (audit src docs) + length (not_documented (audit src docs)).
Proof.
  rewrite length_not_in_source, length_not_documented.
  change (source_count (audit src docs)) with (size src).
  change (doc_count (audit src docs)) with (size docs).
  rewrite <- !size_dom, <- !size_union_alt.
  by rewrite (comm_L (∪)).
Qed.

(** X3: The deprecated tools that the documents mention are among the
    deprecated tools of the source, which are among its tools. *)
Theorem deprecated_counts_bounded (src : gmap str ToolRecord)
    (docs : gmap str (list str)) :
  length (deprecated_in_docs (audit src docs)) ≤ deprecated_count (audit src docs) ∧
  deprecated_count (audit src docs) ≤ source_count (audit src docs).
Proof.
  split.
  - change (deprecated_count (audit src docs)) with
      (length (filter (λ kt, deprecated kt.2 = true) (map_to_list src))).
    rewrite <- (length_fmap fst (filter _ (map_to_list src))).
    apply submseteq_length, NoDup_submseteq.
    + rewrite deprecated_in_docs_filter. apply NoDup_filter, keys_NoDup.
    + intros k (_ & t & Ht & Hdep)%elem_of_deprecated_in_docs.
      apply list_elem_of_fmap. exists (k, t). split; [done|].
      apply list_elem_of_filter. split; [done|]. by apply elem_of_map_to_list.
  - change (source_count (audit src docs)) with (size src).
    rewrite <- length_map_to_list. apply length_filter.
Qed.

(** X4: The audit passes exactly when every name the documents mention is a
    tool of the source that is not deprecated. *)
Theorem audit_passes_iff (src : gmap str ToolRecord)
    (docs : gmap str (list str)) :
  audit_failed (audit src docs) = false ↔
  ∀ k, k ∈ dom docs → ∃ t, src !! k = Some t ∧ deprecated t = false.
Proof.
  change (audit_failed (audit src docs)) with
    (truthy (not_in_source (audit src docs)) ||
     truthy (deprecated_in_docs (audit src docs))).
  rewrite orb_false_iff. split.
  - intros [H1 H2] k Hk.
    destruct (src !! k) as [t|] eqn:Ek.
    + exists t. split; [done|]. destruct (deprecated t) eqn:Ed; [|done].
      assert (k ∈ deprecated_in_docs (audit src docs)) as Hin
        by (apply elem_of_deprecated_in_docs; eauto).
      destruct (deprecated_in_docs (audit src docs)); [|done].
      by apply elem_of_nil in Hin.
    + assert (k ∈ not_in_source (audit src docs)) as Hin.
      { apply elem_of_not_in_source. split; [done|].
        by apply not_elem_of_dom. }
      destruct (not_in_source (audit src docs)); [|done].
      by apply elem_of_nil in Hin.
  - intros Hall. split.
    + destruct (not_in_source (audit src docs)) as [|k l] eqn:E; [done|].
      assert (k ∈ not_in_source (audit src docs)) as Hin by (rewrite E; left).
      apply elem_of_not_in_source in Hin as [Hd Hs].
      destruct (Hall k Hd) as (t & Ht & _).
      exfalso. apply Hs, elem_of_dom. eauto.
    + destruct (deprecated_in_docs (audit src docs)) as [|k l] eqn:E; [done|].
      assert (k ∈ deprecated_in_docs (audit src docs)) as Hin by (rewrite E; left).
      apply elem_of_deprecated_in_docs in Hin as (Hd & t & Ht & Hdep).
      destruct (Hall k Hd) as (t' & Ht' & Hnd). congruence.
Qed.

Lemma filter_all {A} (P : A → Prop) `{∀ x, Decision (P x)} (l : list A) :
  Forall P l → filter P l = l.
Proof.
  induction 1 as [|x l Hx Hl IH]; [done|].
  by rewrite filter_cons, decide_True, IH.
Qed.

Lemma filter_none {A} (P : A → Prop) `{∀ x, Decision (P x)} (l : list A) :
  Forall (λ x, ¬ P x) l → filter P l = [].
Proof.
  induction 1 as [|x l Hx Hl IH]; [done|].
  by rewrite filter_cons, decide_False, IH.
Qed.

Lemma keys_empty {V} : keys (∅ : gmap str V) = [].
Proof. unfold keys. by rewrite dom_empty_L, elements_empty. Qed.

Lemma truthy_sorted_keys {V} (d : gmap str V) :
  truthy (sorted (keys d)) = true ↔ d ≠ ∅.
Proof.
  rewrite truthy_spec. split.
  - intros Hne ->. by rewrite (keys_empty (V:=V)) in Hne.
  - intros Hne Hnil. apply Hne, map_eq. intros k. rewrite lookup_empty.
    apply eq_None_not_Some. intros Hk%keys_elem_of.
    rewrite Hnil in Hk. by apply elem_of_nil in Hk.
Qed.

(** X5: Without any mention in the documents the audit passes and every
    tool of the source is listed as undocumented; without any tool in
    the source every mentioned name is listed as unknown, and the audit
    fails as soon as there is one. *)
Theorem audit_one_side_empty :
  (∀ src : gmap str ToolRecord,
     not_in_source (audit src ∅) = [] ∧
     deprecated_in_docs (audit src ∅) = [] ∧
     not_documented (audit src ∅) = sorted (keys src) ∧
     audit_failed (audit src ∅) = false) ∧
  (∀ docs : gmap str (list str),
     not_in_source (audit ∅ docs) = sorted (keys docs) ∧
     deprecated_in_docs (audit ∅ docs) = [] ∧
     not_documented (audit ∅ docs) = [] ∧
     (audit_failed (audit ∅ docs) = true ↔ docs ≠ ∅)).
Proof.
  split.
  - intros src.
    assert (H1 : not_in_source (audit src ∅) = [])
      by (by rewrite not_in_source_filter, (keys_empty (V:=list str))).
    assert (H2 : deprecated_in_docs (audit src ∅) = [])
      by (by rewrite deprecated_in_docs_filter, (keys_empty (V:=list str))).
    split_and!; [done | done | |].
    + rewrite not_documented_filter. apply filter_all, Forall_forall.
      intros k _. by rewrite lookup_empty.
    + change (audit_failed (audit src ∅)) with
        (truthy (not_in_source (audit src ∅)) ||
         truthy (deprecated_in_docs (audit src ∅))).
      by rewrite H1, H2.
  - intros docs.
    assert (H1 : not_in_source (audit ∅ docs) = sorted (keys docs)).
    { rewrite not_in_source_filter. apply filter_all, Forall_forall.
      intros k _. by rewrite lookup_empty. }
    assert (H2 : deprecated_in_docs (audit ∅ docs) = []).
    { rewrite deprecated_in_docs_filter. apply filter_none, Forall_forall.
      intros k _. by rewrite lookup_empty. }
    split_and!; [done | done | by rewrite not_documented_filter, (keys_empty (V:=ToolRecord)) |].
    change (audit_failed (audit ∅ docs)) with
      (truthy (not_in_source (audit ∅ docs)) ||
       truthy (deprecated_in_docs (audit ∅ docs))).
    rewrite H1, H2, orb_false_r. apply truthy_sorted_keys.
Qed.

(** ** What a match looks like *)

Lemma shape_star_cons (g : greed) (c : N → bool) (r : regex) (pos : nat)
    (x : N) (t : str) (caps caps' : list nat) :
  c x = true →
  shape (Star g c :: r) (S pos) t caps caps' →
  shape (Star g c :: r) pos (x :: t) caps caps'.
Proof.
  intros Hx Hs. inversion Hs as [| |g' c' r' pos' l t' ? ? Hl Hr|]; subst.
  change (x :: l ++ t') with ((x :: l) ++ t').
  apply shape_star; [by constructor|].
  by replace (pos + length (x :: l)) with (S pos + length l) by (cbn; lia).
Qed.

Lemma shape_star_skip (g : greed) (c : N → bool) (r : regex) (pos : nat)
    (t : str) (caps caps' : list nat) :
  shape r pos t caps caps' → shape (Star g c :: r) pos t caps caps'.
Proof.
  intros Hs. change t with ([] ++ t). apply shape_star; [constructor|].
  by rewrite Nat.add_0_r.
Qed.

(** The matcher only accepts texts of the pattern's shape. *)
Lemma rmatch_shape (r : regex) (pos : nat) (s : str) (caps : list nat)
    (e : nat) (caps' : list nat) :
  rmatch r pos s caps = Some (e, caps') →
  ∃ t rest, s = t ++ rest ∧ e = pos + length t ∧ shape r pos t caps caps'.
Proof.
  revert pos s caps. induction r as [|[c|[] c|] r IH]; intros pos s caps.
  - intros [= <- <-]. exists [], s. split_and!; [done | cbn; lia | constructor].
  - destruct s as [|x s]; [done|]. cbn. destruct (c x) eqn:Hx; [|done].
    intros (t & rest & -> & -> & Hs)%IH. exists (x :: t), rest.
    split_and!; [done | cbn; lia | by constructor].
  - revert pos. induction s as [|x s IHs]; intros pos.
    + rewrite rmatch_greedy_nil. intros (t & rest & ? & ? & ?)%IH.
      exists t, rest. split_and!; [done.. | by apply shape_star_skip].
    + rewrite rmatch_greedy_cons. destruct (c x) eqn:Hx.
      * destruct (rmatch (Star Greedy c :: r) (S pos) s caps) as [res|] eqn:E.
        -- intros [= ->]. apply IHs in E as (t & rest & -> & -> & Hs).
           exists (x :: t), rest.
           split_and!; [done | cbn; lia | by apply shape_star_cons].
        -- intros (t & rest & ? & ? & ?)%IH.
           exists t, rest. split_and!; [done.. | by apply shape_star_skip].
      * intros (t & rest & ? & ? & ?)%IH.
        exists t, rest. split_and!; [done.. | by apply shape_star_skip].
  - revert pos. induction s as [|x s IHs]; intros pos; rewrite rmatch_lazy.
    + destruct (rmatch r pos [] caps) as [res|] eqn:E; [|done].
      intros [= ->]. apply IH in E as (t & rest & ? & ? & ?).
      exists t, rest. split_and!; [done.. | by apply shape_star_skip].
    + destruct (rmatch r pos (x :: s) caps) as [res|] eqn:E.
      * intros [= ->]. apply IH in E as (t & rest & ? & ? & ?).
        exists t, rest. split_and!; [done.. | by apply shape_star_skip].
      * destruct (c x) eqn:Hx; [|done].
        intros (t & rest & -> & -> & Hs)%IHs. exists (x :: t), rest.
        split_and!; [done | cbn; lia | by apply shape_star_cons].
  - cbn. intros (t & rest & ? & ? & ?)%IH.
    exists t, rest. split_and!; [done.. | by constructor].
Qed.

(** Every reported match is a match of the pattern at its start. *)
Lemma finditer_aux_sound (r : regex) (s : str) (skip pos : nat) (m : rematch) :
  m ∈ finditer_aux r skip pos s →
  ∃ pre suf, s = pre ++ suf ∧ m_start m = pos + length pre ∧
             rmatch r (m_start m) suf [] = Some (m_end m, m_caps m).
Proof.
  revert skip pos. induction s as [|x s IH]; intros skip pos; cbn [finditer_aux].
  - by intros ?%elem_of_nil.
  - assert (Hstep : ∀ k, m ∈ finditer_aux r k (S pos) s →
      ∃ pre suf, x :: s = pre ++ suf ∧ m_start m = pos + length pre ∧
                 rmatch r (m_start m) suf [] = Some (m_end m, m_caps m)).
    { intros k (pre & suf & -> & Hst & Hm)%IH. exists (x :: pre), suf.
      split_and!; [done | cbn; lia | done]. }
    destruct skip as [|k]; [|apply Hstep].
    destruct (rmatch r pos (x :: s) []) as [[e caps]|] eqn:E; [|apply Hstep].
    intros [->|Hin]%elem_of_cons; [|by eapply Hstep].
    exists [], (x :: s). cbn. rewrite Nat.add_0_r. done.
Qed.

Lemma finditer_shape (r : regex) (content : str) (m : rematch) :
  m ∈ finditer r content →
  ∃ pre t rest, content = pre ++ t ++ rest ∧
                m_start m = length pre ∧ m_end m = length pre + length t ∧
                shape r (length pre) t [] (m_caps m).
Proof.
  intros (pre & suf & -> & Hst & Hm)%finditer_aux_sound. cbn in Hst.
  rewrite Hst in Hm. apply rmatch_shape in Hm as (t & rest & -> & He & Hs).
  exists pre, t, rest. done.
Qed.

(** Taking a shape apart. *)
Lemma shape_chars_inv (l : str) (r : regex) (pos : nat) (t : str)
    (caps caps' : list nat) :
  shape (map (λ a, One (chr a)) l ++ r) pos t caps caps' →
  ∃ t', t = l ++ t' ∧ shape r (pos + length l) t' caps caps'.
Proof.
  revert pos t. induction l as [|a l IH]; intros pos t; cbn [map app length].
  - intros Hs. exists t. by rewrite Nat.add_0_r.
  - intros Hs. inversion Hs as [|c r' pos' x t0 ? ? Hx Hr| |]; subst.
    apply bool_decide_eq_true in Hx as ->.
    apply IH in Hr as (t' & -> & Hr). exists t'. split; [done|].
    by replace (pos + S (length l)) with (S pos + length l) by lia.
Qed.

Lemma shape_literal_inv (lt : string) (r : regex) (pos : nat) (t : str)
    (caps caps' : list nat) :
  shape (literal lt ++ r) pos t caps caps' →
  ∃ t', t = lit lt ++ t' ∧ shape r (pos + length (lit lt)) t' caps caps'.
Proof. apply shape_chars_inv. Qed.

Lemma shape_one_inv (c : N → bool) (r : regex) (pos : nat) (t : str)
    (caps caps' : list nat) :
  shape (One c :: r) pos t caps caps' →
  ∃ x t', t = x :: t' ∧ c x = true ∧ shape r (S pos) t' caps caps'.
Proof. inversion 1; subst. eauto. Qed.

Lemma shape_star_inv (g : greed) (c : N → bool) (r : regex) (pos : nat)
    (t : str) (caps caps' : list nat) :
  shape (Star g c :: r) pos t caps caps' →
  ∃ l t', t = l ++ t' ∧ Forall (λ x, c x = true) l ∧
          shape r (pos + length l) t' caps caps'.
Proof. inversion 1; subst. eauto. Qed.

Lemma shape_save_inv (r : regex) (pos : nat) (t : str) (caps caps' : list nat) :
  shape (Save :: r) pos t caps caps' → shape r pos t (pos :: caps) caps'.
Proof. by inversion 1. Qed.

Lemma shape_nil_inv (pos : nat) (t : str) (caps caps' : list nat) :
  shape [] pos t caps caps' → t = [] ∧ caps' = caps.
Proof. by inversion 1. Qed.

(** ** The documents: which names are recorded *)

Lemma prefix_ns_lower_us : lower_us prefix_ns.
Proof. apply (bool_decide_unpack _). vm_compute. exact I. Qed.

(** A match of the mention pattern is the prefix followed by a run of
    lowercase letters and underscores that is not empty. *)
Lemma mention_match_text (content : str) (m : rematch) :
  m ∈ finditer mention_pattern content →
  ∃ pre x run rest,
    content = pre ++ (lit "spectree__" ++ x :: run) ++ rest ∧
    m_start m = length pre ∧
    m_end m = length pre + length (lit "spectree__" ++ x :: run) ∧
    lower_us (x :: run).
Proof.
  intros (pre & t & rest & -> & Hst & Hend & Hs)%finditer_shape.
  unfold mention_pattern in Hs.
  apply shape_literal_inv in Hs as (t1 & -> & Hs).
  apply shape_one_inv in Hs as (x & t2 & -> & Hx & Hs).
  apply shape_star_inv in Hs as (run & t3 & -> & Hrun & Hs).
  apply shape_nil_inv in Hs as [-> _]. rewrite app_nil_r in *.
  exists pre, x, run, rest. split_and!; [done.. | by constructor].
Qed.

Lemma findall_mention (content id : str) :
  id ∈ findall mention_pattern content →
  (∃ x run, id = lit "spectree__" ++ x :: run ∧ lower_us (x :: run)) ∧
  occurs id content.
Proof.
  intros (m & -> & Hm)%list_elem_of_fmap.
  split; [|apply occurs_slice].
  apply mention_match_text in Hm as (pre & x & run & rest & -> & -> & -> & Hl).
  exists x, run. split; [|done]. apply slice_middle.
Qed.

Lemma foldl_process_doc_is_Some (read : str → str) (docs : list str)
    (doc_mentions : gmap str (list str)) (id : str) :
  is_Some (foldl (process_doc read) doc_mentions docs !! id) ↔
  is_Some (doc_mentions !! id) ∨ ∃ d, d ∈ docs ∧ mentions read id d.
Proof.
  revert doc_mentions. induction docs as [|d docs IH]; intros doc_mentions;
    cbn [foldl].
  - split; [auto|]. intros [?|(d & Hd & _)]; [done | by apply elem_of_nil in Hd].
  - rewrite IH, process_doc_lookup. split.
    + intros [Hs|(d' & ? & ?)].
      * destruct (decide (mentions read id d)); [|auto].
        right. exists d. split; [left | done].
      * right. exists d'. split; [by right | done].
    + intros [Hs|(d' & [->|Hd']%elem_of_cons & Hm)].
      * left. destruct (decide (mentions read id d)); eauto.
      * left. rewrite decide_True by done. eauto.
      * right. eauto.
Qed.

Lemma extract_tools_from_docs_dom (doc_files : list str) (read : str → str)
    (id : str) :
  id ∈ dom (extract_tools_from_docs doc_files read) ↔
  ∃ doc, doc ∈ doc_files ∧ id ∈ findall mention_pattern (read doc).
Proof.
  rewrite elem_of_dom. unfold extract_tools_from_docs.
  rewrite foldl_process_doc_is_Some, lookup_empty. split.
  - intros [[? ?]|(d & Hd & Hm)]; [done|]. rewrite sorted_elem_of in Hd.
    exists d. split; [exact Hd | exact Hm].
  - intros (d & Hd & Hm). right. exists d. rewrite sorted_elem_of.
    split; [done | exact Hm].
Qed.

(** X6: The names recorded from the documents are the names some listed
    document mentions, and the list kept for a name holds the file name
    of each document that mentions it, in the sorted order of the
    documents' paths; it is never empty. *)
Theorem doc_mapping_characterised (doc_files : list str) (read : str → str)
    (id : str) :
  (id ∈ dom (extract_tools_from_docs doc_files read) ↔
   ∃ doc, doc ∈ doc_files ∧ id ∈ findall mention_pattern (read doc)) ∧
  (∀ labels, extract_tools_from_docs doc_files read !! id = Some labels →
     labels ≠ [] ∧
     labels = path_name <$> filter (λ doc, id ∈ findall mention_pattern (read doc))
                                   (sorted doc_files)).
Proof.
  split; [apply extract_tools_from_docs_dom|].
  intros labels Hl.
  pose proof (extract_tools_from_docs_labels doc_files read id) as Heq.
  rewrite Hl in Heq. cbn in Heq. split; [|done].
  assert (Hdom : id ∈ dom (extract_tools_from_docs doc_files read))
    by (apply elem_of_dom; eauto).
  apply extract_tools_from_docs_dom in Hdom as (doc & Hdoc & Hm).
  intros ->. symmetry in Heq. apply fmap_nil_inv in Heq.
  assert (Hin : doc ∈ filter (mentions read id) (sorted doc_files)).
  { apply list_elem_of_filter. split; [done | by apply sorted_elem_of]. }
  rewrite Heq in Hin. by apply elem_of_nil in Hin.
Qed.

Lemma doc_dom_shape (doc_files : list str) (read : str → str) (id : str) :
  id ∈ dom (extract_tools_from_docs doc_files read) →
  (∃ x run, id = lit "spectree__" ++ x :: run ∧ lower_us (x :: run)) ∧
  ∃ doc, doc ∈ doc_files ∧ occurs id (read doc).
Proof.
  intros (doc & Hdoc & [Hshape Hocc]%findall_mention)%extract_tools_from_docs_dom.
  split; [done | eauto].
Qed.

(** X7: Every name recorded from the documents is the prefix followed by at
    least one lowercase letter or underscore, and holds nothing else; it
    stands verbatim in one of the listed documents. *)
Theorem doc_key_shape (doc_files : list str) (read : str → str) (id : str) :
  id ∈ dom (extract_tools_from_docs doc_files read) →
  (∃ x run, id = lit "spectree__" ++ x :: run ∧
            Forall (λ c, is_lower_us c = true) (x :: run)) ∧
  ∃ doc, doc ∈ doc_files ∧ occurs id (read doc).
Proof. apply doc_dom_shape. Qed.

Lemma doc_key_shape_witness :
  (∃ x run, lit "spectree__foo" = lit "spectree__" ++ x :: run ∧
            Forall (λ c, is_lower_us c = true) (x :: run)) ∧
  ∃ doc, doc ∈ [lit "docs/mcp/tools.md"] ∧ occurs (lit "spectree__foo") triple_doc.
Proof.
  apply (doc_key_shape [lit "docs/mcp/tools.md"] (λ _, triple_doc)
           (lit "spectree__foo")).
  apply elem_of_dom. vm_compute. eauto.
Defined.

(** The mention pattern on a name that ends where the text allows. *)
Lemma mention_pattern_match (run rest : str) (pos : nat) :
  run ≠ [] → lower_us run →
  (∀ c, head rest = Some c → is_lower_us c = false) →
  rmatch mention_pattern pos (lit "spectree__" ++ run ++ rest) [] =
  Some (pos + length (lit "spectree__" ++ run), []).
Proof.
  intros Hne Hrun Hrest. destruct run as [|x run]; [done|].
  apply Forall_cons in Hrun as [Hx Hrun].
  unfold mention_pattern. rewrite rmatch_literal. cbn [app].
  change (plus is_lower_us) with [One is_lower_us; Star Greedy is_lower_us].
  rewrite rmatch_one by done.
  apply rmatch_greedy_run; [done|].
  assert (Hpos : S (pos + length (lit "spectree__")) + length run =
                 pos + length (lit "spectree__" ++ x :: run))
    by (rewrite length_app; cbn; lia).
  destruct rest as [|y rest].
  - rewrite rmatch_greedy_nil. cbn [rmatch]. by rewrite Hpos.
  - rewrite rmatch_greedy_stop by (by apply Hrest). cbn [rmatch]. by rewrite Hpos.
Qed.

(** X8: A name of the documented form that stands between characters which
    are neither lowercase letters nor underscores is always recorded. *)
Theorem delimited_mention_found (doc_files : list str) (read : str → str)
    (doc pre run rest : str) :
  doc ∈ doc_files →
  read doc = pre ++ lit "spectree__" ++ run ++ rest →
  run ≠ [] →
  Forall (λ c, is_lower_us c = true) run →
  (∀ c, last pre = Some c → is_lower_us c = false) →
  (∀ c, head rest = Some c → is_lower_us c = false) →
  lit "spectree__" ++ run ∈ dom (extract_tools_from_docs doc_files read).
Proof.
  intros Hdoc Hread Hne Hrun Hpre Hrest.
  apply extract_tools_from_docs_dom. exists doc. split; [done|].
  pose proof (mention_pattern_match run rest (length pre) Hne Hrun Hrest) as Hm.
  destruct (finditer_complete mention_pattern pre
              (lit "spectree__" ++ run ++ rest) _ _ ltac:(done) Hm)
    as [Hin|(m & Hin & Hlt & Hgt)].
  - apply list_elem_of_fmap. eexists. rewrite Hread. split; [|exact Hin].
    cbn [m_start m_end]. symmetry.
    replace (pre ++ lit "spectree__" ++ run ++ rest)
      with (pre ++ (lit "spectree__" ++ run) ++ rest) by (by rewrite <- app_assoc).
    apply slice_middle.
  - exfalso.
    apply mention_match_text in Hin
      as (pre' & x & run' & rest' & Heq & Hst & Hend & Hl).
    destruct (last pre) as [c|] eqn:Elast;
      [|apply last_None in Elast; subst pre; cbn in Hlt; lia].
    specialize (Hpre c eq_refl).
    assert (Hc : (pre ++ lit "spectree__" ++ run ++ rest) !! pred (length pre) = Some c).
    { rewrite lookup_app_l by lia. by rewrite <- last_lookup. }
    rewrite Heq in Hc.
    rewrite lookup_app_r in Hc by lia.
    rewrite lookup_app_l in Hc by lia.
    assert (Hall : lower_us (lit "spectree__" ++ x :: run'))
      by (apply Forall_app; split; [apply prefix_ns_lower_us | done]).
    eapply Forall_lookup_1 in Hall; [|exact Hc]. cbn in Hall. congruence.
Qed.

Lemma delimited_mention_found_witness :
  lit "spectree__" ++ lit "foo" ∈
    dom (extract_tools_from_docs [lit "docs/mcp/tools.md"]
           (λ _, lit "Use `spectree__foo` first.")).
Proof.
  apply (delimited_mention_found [lit "docs/mcp/tools.md"]
           (λ _, lit "Use `spectree__foo` first.") (lit "docs/mcp/tools.md")
           (lit "Use `") (lit "foo") (lit "` first.")).
  - left.
  - reflexivity.
  - done.
  - apply (bool_decide_unpack _). vm_compute. exact I.
  - intros c [= <-]. reflexivity.
  - intros c [= <-]. reflexivity.
Defined.

(** ** The source files: what a registration match holds *)

Lemma slice_at (content a b c : str) (n k : nat) :
  content = a ++ b ++ c → n = length a → k = length a + length b →
  slice content n k = b.
Proof. intros -> -> ->. apply slice_middle. Qed.

Lemma group2_of_caps (content : str) (m : rematch) (a b c d : nat) :
  m_caps m = [d; c; b; a] →
  group content m 1 = slice content a b ∧
  group content m 2 = slice content c d.
Proof. intros H. unfold group. by rewrite H. Qed.

(** The two groups of a match of the registration pattern are not empty
    and hold no quote; the match begins with the marker and ends with
    the second group. *)
Lemma register_match_groups (content : str) (m : rematch) :
  m ∈ finditer register_pattern content →
  ∃ pre mid1 mid2 rest,
    content = pre ++ lit "server.registerTool(" ++ mid1 ++
              group content m 1 ++ mid2 ++ group content m 2 ++ rest ∧
    m_start m = length pre ∧
    m_end m = length content - length rest ∧
    group content m 1 ≠ [] ∧
    Forall (λ c, is_quote c = false) (group content m 1) ∧
    group content m 2 ≠ [] ∧
    Forall (λ c, is_quote c = false) (group content m 2).
Proof.
  intros (pre & t & rest & -> & Hst & Hend & Hs)%finditer_shape.
  unfold register_pattern, name_pattern in Hs. rewrite <- !app_assoc in Hs.
  apply shape_literal_inv in Hs as (t1 & -> & Hs). cbn [app] in Hs.
  change (plus not_quote) with [One not_quote; Star Greedy not_quote] in Hs.
  cbn [app] in Hs.
  apply shape_star_inv in Hs as (ws1 & t2 & -> & Hws1 & Hs).
  apply shape_one_inv in Hs as (q1 & t3 & -> & Hq1 & Hs).
  apply shape_save_inv in Hs.
  apply shape_one_inv in Hs as (i & t4 & -> & Hi & Hs).
  apply shape_star_inv in Hs as (id & t5 & -> & Hid & Hs).
  apply shape_save_inv in Hs.
  apply shape_one_inv in Hs as (q2 & t6 & -> & Hq2 & Hs).
  apply shape_literal_inv in Hs as (t7 & -> & Hs). cbn [app] in Hs.
  apply shape_star_inv in Hs as (ws2 & t8 & -> & Hws2 & Hs).
  apply shape_literal_inv in Hs as (t9 & -> & Hs). cbn [app] in Hs.
  apply shape_star_inv in Hs as (filler & t10 & -> & Hfill & Hs).
  apply shape_literal_inv in Hs as (t11 & -> & Hs). cbn [app] in Hs.
  apply shape_star_inv in Hs as (ws3 & t12 & -> & Hws3 & Hs).
  apply shape_one_inv in Hs as (q3 & t13 & -> & Hq3 & Hs).
  apply shape_save_inv in Hs.
  apply shape_one_inv in Hs as (d & t14 & -> & Hd & Hs).
  apply shape_star_inv in Hs as (desc & t15 & -> & Hdesc & Hs).
  apply shape_save_inv in Hs.
  apply shape_nil_inv in Hs as [-> Hcaps].
  set (content := pre ++ _).
  destruct (group2_of_caps content m _ _ _ _ Hcaps) as [Hg1 Hg2].
  assert (Hlen : ∀ (x : N) (l : str), length (x :: l) = S (length l)) by done.
  assert (Hid1 : group content m 1 = i :: id).
  { rewrite Hg1.
    apply (slice_at _ (pre ++ lit "server.registerTool(" ++ ws1 ++ [q1]) _
             (q2 :: lit "," ++ ws2 ++ lit "{" ++ filler ++ lit "description:" ++
              ws3 ++ q3 :: d :: desc ++ [] ++ rest)).
    - subst content. repeat (rewrite <- app_assoc; cbn [app]).
      reflexivity.
    - repeat (rewrite length_app || rewrite Hlen). cbn [length]. lia.
    - repeat (rewrite length_app || rewrite Hlen). cbn [length]. lia. }
  assert (Hid2 : group content m 2 = d :: desc).
  { rewrite Hg2.
    apply (slice_at _ (pre ++ lit "server.registerTool(" ++ ws1 ++ q1 :: i ::
                       id ++ q2 :: lit "," ++ ws2 ++ lit "{" ++ filler ++
                       lit "description:" ++ ws3 ++ [q3]) _ rest).
    - subst content. repeat (rewrite <- app_assoc; cbn [app]).
      reflexivity.
    - repeat (rewrite length_app || rewrite Hlen). cbn [length]. lia.
    - repeat (rewrite length_app || rewrite Hlen). cbn [length]. lia. }
  rewrite Hid1, Hid2.
  exists pre, (ws1 ++ [q1]),
    (q2 :: lit "," ++ ws2 ++ lit "{" ++ filler ++ lit "description:" ++ ws3 ++ [q3]),
    rest.
  assert (Hnq : ∀ l, Forall (λ x, not_quote x = true) l →
                     Forall (λ c, is_quote c = false) l).
  { intros l Hl. eapply Forall_impl; [exact Hl|]. intros x Hx.
    unfold not_quote in Hx. by apply negb_true_iff in Hx. }
  split_and!.
  - subst content. repeat (rewrite <- app_assoc; cbn [app]). reflexivity.
  - done.
  - rewrite Hend. subst content.
    repeat (rewrite length_app || rewrite Hlen). cbn [length]. lia.
  - done.
  - apply Hnq. by constructor.
  - done.
  - apply Hnq. by constructor.
Qed.

(** ** The source files: which tools are recorded *)

(** X9: The tools of the final mapping are the identifiers with the prefix
    that some listed file registers, files ending in [.test.ts] apart;
    each record names a file that is listed, is no test file and
    registers the identifier. *)
Theorem source_mapping_characterised (tool_files : list str)
    (read : str → str) (id : str) :
  (id ∈ dom (extract_tools_from_source tool_files read) ↔
   ∃ p m, p ∈ tool_files ∧ endswith p (lit ".test.ts") = false ∧
          m ∈ finditer register_pattern (read p) ∧
          group (read p) m 1 = id ∧ startswith id (lit "spectree__") = true) ∧
  (∀ t, extract_tools_from_source tool_files read !! id = Some t →
     file t ∈ tool_files ∧ endswith (file t) (lit ".test.ts") = false ∧
     ∃ m, m ∈ finditer register_pattern (read (file t)) ∧
          group (read (file t)) m 1 = id ∧
          t = record_of (read (file t)) (file t) m).
Proof.
  split.
  - rewrite elem_of_dom. split.
    + intros [t (p & m & ? & ? & ? & ? & ? & _)%extract_tools_from_source_lookup].
      exists p, m. done.
    + intros (p & m & Hp & Hts & Hm & Hg & Hpre).
      apply (extract_tools_from_source_is_Some _ _ p); [done..|].
      apply file_tools_is_Some. eauto.
  - intros t (p & m & ? & ? & ? & ? & _ & ->)%extract_tools_from_source_lookup.
    cbn [file record_of]. split_and!; [done..|]. exists m. done.
Qed.

Lemma ellipsis_no_quote : Forall (λ c, is_quote c = false) ellipsis.
Proof. apply (bool_decide_unpack _). vm_compute. exact I. Qed.

Lemma record_of_description_shape (content file_path : str) (m : rematch) :
  m ∈ finditer register_pattern content →
  description (record_of content file_path m) ≠ [] ∧
  Forall (λ c, is_quote c = false) (description (record_of content file_path m)) ∧
  length (description (record_of content file_path m)) ≤ 103.
Proof.
  intros (_ & _ & _ & _ & _ & _ & _ & _ & _ & Hne & Hnq)%register_match_groups.
  unfold record_of. cbn [description].
  destruct (Nat.ltb_spec 100 (length (group content m 2))) as [Hlong|Hshort].
  - split_and!.
    + intros [_ Hel]%app_eq_nil. discriminate.
    + apply Forall_app. split; [by apply Forall_take | apply ellipsis_no_quote].
    + rewrite length_app, length_take. change (length ellipsis) with 3. lia.
  - split_and!; [done | done | lia].
Qed.

(** X10: The identifier of every record holds no quote character; the stored
    description is not empty, holds no quote character and has at most
    103 characters. *)
Theorem source_record_shape (tool_files : list str) (read : str → str)
    (id : str) (t : ToolRecord) :
  extract_tools_from_source tool_files read !! id = Some t →
  id ≠ [] ∧
  Forall (λ c, is_quote c = false) id ∧
  description t ≠ [] ∧
  Forall (λ c, is_quote c = false) (description t) ∧
  length (description t) ≤ 103.
Proof.
  intros (p & m & _ & _ & Hm & <- & _ & ->)%extract_tools_from_source_lookup.
  pose proof (register_match_groups _ _ Hm)
    as (_ & _ & _ & _ & _ & _ & _ & Hne & Hnq & _).
  pose proof (record_of_description_shape (read p) p m Hm) as (? & ? & ?).
  done.
Qed.

Lemma source_record_shape_witness :
  ∃ t, extract_tools_from_source [sample_path] sample_read
         !! lit "spectree__long" = Some t ∧
       length (description t) = 103 ∧
       lit "spectree__long" ≠ [] ∧
       Forall (λ c, is_quote c = false) (lit "spectree__long") ∧
       description t ≠ [] ∧
       Forall (λ c, is_quote c = false) (description t) ∧
       length (description t) ≤ 103.
Proof.
  eexists. split; [vm_compute; reflexivity|]. split; [vm_compute; reflexivity|].
  apply (source_record_shape [sample_path] sample_read).
  vm_compute; reflexivity.
Defined.

Lemma foldl_process_match_skip (content file_path : str) (ms : list rematch)
    (tools : gmap str ToolRecord) (id : str) :
  (∀ m, m ∈ ms → group content m 1 ≠ id) →
  foldl (process_match content file_path) tools ms !! id = tools !! id.
Proof.
  revert tools. induction ms as [|m ms IH]; intros tools Hms; cbn [foldl]; [done|].
  rewrite IH by (intros m' Hm'; apply Hms; by right).
  unfold process_match. destruct (startswith (group content m 1) prefix_ns); [|done].
  apply lookup_insert_ne, Hms. left.
Qed.

(** X11: Within one file the last registration of an identifier stands:
    the file's record for it is built from the last match that carries
    it. *)
Theorem last_match_in_file_wins (read : str → str) (file_path : str)
    (before after : list rematch) (m : rematch) :
  finditer register_pattern (read file_path) = before ++ m :: after →
  startswith (group (read file_path) m 1) (lit "spectree__") = true →
  (∀ m', m' ∈ after →
         group (read file_path) m' 1 ≠ group (read file_path) m 1) →
  file_tools read file_path !! group (read file_path) m 1 =
  Some (record_of (read file_path) file_path m).
Proof.
  intros Hms Hpre Hafter. unfold file_tools, process_file.
  rewrite Hms, foldl_app. cbn [foldl].
  rewrite foldl_process_match_skip by done.
  unfold process_match at 1. change (lit "spectree__") with prefix_ns in Hpre.
  rewrite Hpre. apply lookup_insert_eq.
Qed.

Lemma last_match_in_file_wins_witness :
  file_tools (λ _, twice_content) (lit "a.ts") !! lit "spectree__twice" =
  Some {| file := lit "a.ts"; deprecated := false; description := lit "two" |}.
Proof.
  pose proof (last_match_in_file_wins (λ _, twice_content) (lit "a.ts")
                [Match 0 69 [69; 55; 36; 21]] []
                (Match 75 133 [133; 130; 111; 96])) as H.
  cbv beta in H. specialize (H eq_refl eq_refl).
  assert (Hafter : ∀ m', m' ∈ [] →
            group twice_content m' 1 ≠
            group twice_content (Match 75 133 [133; 130; 111; 96]) 1)
    by (by intros m' ?%elem_of_nil).
  specialize (H Hafter). exact H.
Defined.

(** ** The whole audit, from the files *)

Lemma source_dom (tool_files : list str) (read : str → str) (id : str) :
  id ∈ dom (extract_tools_from_source tool_files read) ↔
  ∃ p m, p ∈ tool_files ∧ endswith p test_suffix = false ∧
         m ∈ finditer register_pattern (read p) ∧
         group (read p) m 1 = id ∧ startswith id prefix_ns = true.
Proof.
  rewrite elem_of_dom. split.
  - intros [t (p & m & ? & ? & ? & ? & ? & _)%extract_tools_from_source_lookup].
    exists p, m. done.
  - intros (p & m & Hp & Hts & Hm & Hg & Hpre).
    apply (extract_tools_from_source_is_Some _ _ p); [done..|].
    apply file_tools_is_Some. eauto.
Qed.

(** X12: The lists of the report in terms of the files: a name is reported
    as unknown exactly when a document mentions it and no source file
    registers it, and a tool as undocumented exactly when a source file
    registers it and no document mentions it; a tool reported as
    deprecated is both registered and mentioned. *)
Theorem run_audit_lists (tool_files doc_files : list str) (read : str → str)
    (id : str) :
  let registered :=
    ∃ p m, p ∈ tool_files ∧ endswith p (lit ".test.ts") = false ∧
           m ∈ finditer register_pattern (read p) ∧
           group (read p) m 1 = id ∧ startswith id (lit "spectree__") = true in
  let mentioned :=
    ∃ doc, doc ∈ doc_files ∧ id ∈ findall mention_pattern (read doc) in
  (id ∈ not_in_source (run_audit tool_files doc_files read) ↔
   mentioned ∧ ¬ registered) ∧
  (id ∈ not_documented (run_audit tool_files doc_files read) ↔
   registered ∧ ¬ mentioned) ∧
  (id ∈ deprecated_in_docs (run_audit tool_files doc_files read) →
   mentioned ∧ registered).
Proof.
  intros registered mentioned. unfold run_audit.
  pose proof (source_dom tool_files read id) as Hs.
  pose proof (extract_tools_from_docs_dom doc_files read id) as Hd.
  fold registered in Hs. fold mentioned in Hd.
  rewrite elem_of_not_in_source, elem_of_not_documented,
    elem_of_deprecated_in_docs.
  split_and!.
  - by rewrite Hs, Hd.
  - by rewrite Hs, Hd.
  - intros [Hm (t & Ht & _)]. split; [by apply Hd|].
    apply Hs, elem_of_dom. eauto.
Qed.

(** X13: Every identifier that the report lists carries the prefix. *)
Theorem reported_names_prefixed (tool_files doc_files : list str)
    (read : str → str) (id : str) :
  id ∈ not_in_source (run_audit tool_files doc_files read) ∨
  id ∈ deprecated_in_docs (run_audit tool_files doc_files read) ∨
  id ∈ not_documented (run_audit tool_files doc_files read) →
  ∃ rest, id = lit "spectree__" ++ rest.
Proof.
  unfold run_audit.
  rewrite elem_of_not_in_source, elem_of_deprecated_in_docs,
    elem_of_not_documented.
  intros [[Hd _]|[[Hd _]|[Hs _]]].
  - apply doc_dom_shape in Hd as [(x & run & -> & _) _]. eauto.
  - apply doc_dom_shape in Hd as [(x & run & -> & _) _]. eauto.
  - apply source_dom in Hs as (_ & _ & _ & _ & _ & _ & Hpre).
    by apply startswith_spec.
Qed.

Lemma reported_names_prefixed_witness :
  ∃ rest, lit "spectree__foo" = lit "spectree__" ++ rest.
Proof.
  apply (reported_names_prefixed [] [lit "docs/mcp/tools.md"] (λ _, triple_doc)).
  left. vm_compute. left.
Defined.

(** X14: The documents can only name identifiers made of lowercase letters
    and underscores: a registered tool whose identifier holds any other
    character is reported as undocumented whatever the documents say. *)
Theorem other_characters_never_documented (tool_files doc_files : list str)
    (read : str → str) (id : str) (c : N) :
  id ∈ dom (extract_tools_from_source tool_files read) →
  c ∈ id → is_lower_us c = false →
  id ∈ not_documented (run_audit tool_files doc_files read).
Proof.
  intros Hs Hc Hlow. unfold run_audit. apply elem_of_not_documented.
  split; [done|].
  intros [(x & run & -> & Hl) _]%doc_dom_shape.
  assert (Hall : lower_us (lit "spectree__" ++ x :: run))
    by (apply Forall_app; split; [apply prefix_ns_lower_us | done]).
  unfold lower_us in Hall. rewrite Forall_forall in Hall.
  specialize (Hall c Hc). cbn in Hall. congruence.
Qed.

Lemma other_characters_never_documented_witness :
  lit "spectree__getV2" ∈
    not_documented
      (run_audit [lit "a.ts"] [lit "docs/mcp/tools.md"]
         (λ p, if decide (p = lit "a.ts")
               then lit "server.registerTool('spectree__getV2', { description: 'get' });"
               else lit "Call `spectree__getV2` to read.")).
Proof.
  apply (other_characters_never_documented [lit "a.ts"] [lit "docs/mcp/tools.md"]
           _ (lit "spectree__getV2") 86%N).
  - apply elem_of_dom. vm_compute. eauto.
  - apply (bool_decide_unpack _). vm_compute. exact I.
  - reflexivity.
Defined.

(** ** [extract-tool-names.py]: the list and the listing *)

Lemma names_of_file_names (read : str → str) (tools : list NameEntry)
    (file_path : str) :
  name <$> names_of_file read tools file_path =
  (name <$> tools) ++
  filter (λ n, startswith n prefix_ns = true)
         (findall1 name_pattern (read file_path)) ∧
  name_file <$> names_of_file read tools file_path =
  (name_file <$> tools) ++
  ((λ _, file_path) <$> filter (λ n, startswith n prefix_ns = true)
                               (findall1 name_pattern (read file_path))).
Proof.
  unfold names_of_file.
  generalize (findall1 name_pattern (read file_path)) as ms. intros ms.
  revert tools. induction ms as [|x ms IH]; intros tools; cbn [foldl].
  - rewrite filter_nil. cbn. by rewrite !app_nil_r.
  - destruct (IH (if startswith x prefix_ns
                  then tools ++ [{| name := x; name_file := file_path;
                                    name_deprecated := contains DEPRECATED
                                      (slice_to (read file_path)
                                         (find (read file_path) x)) |}]
                  else tools)) as [IH1 IH2].
    rewrite IH1, IH2, filter_cons.
    destruct (startswith x prefix_ns) eqn:E.
    + rewrite decide_True by done. rewrite !fmap_app. cbn.
      by rewrite <- !app_assoc.
    + rewrite decide_False by congruence. done.
Qed.

Lemma extract_tool_names_flat (tool_files : list str) (read : str → str) :
  name <$> extract_tool_names tool_files read =
  sorted (filter (λ f, endswith f test_suffix = false) tool_files) ≫=
    (λ p, filter (λ n, startswith n prefix_ns = true)
                 (findall1 name_pattern (read p))) ∧
  name_file <$> extract_tool_names tool_files read =
  sorted (filter (λ f, endswith f test_suffix = false) tool_files) ≫=
    (λ p, (λ _, p) <$> filter (λ n, startswith n prefix_ns = true)
                              (findall1 name_pattern (read p))).
Proof.
  unfold extract_tool_names.
  generalize (sorted (filter (λ f, endswith f test_suffix = false) tool_files)).
  intros ps.
  assert (Hgen : ∀ tools,
    name <$> foldl (names_of_file read) tools ps =
    (name <$> tools) ++ (ps ≫= (λ p, filter (λ n, startswith n prefix_ns = true)
                                     (findall1 name_pattern (read p)))) ∧
    name_file <$> foldl (names_of_file read) tools ps =
    (name_file <$> tools) ++
    (ps ≫= (λ p, (λ _, p) <$> filter (λ n, startswith n prefix_ns = true)
                               (findall1 name_pattern (read p))))).
  { induction ps as [|p ps IH]; intros tools; cbn [foldl].
    - cbn. by rewrite !app_nil_r.
    - destruct (IH (names_of_file read tools p)) as [-> ->].
      destruct (names_of_file_names read tools p) as [-> ->].
      cbn. by rewrite <- !app_assoc. }
  apply (Hgen []).
Qed.

(** X15: The list holds one entry for each captured name with the prefix:
    file by file in the sorted order of the paths of the files that are
    no test files, and within a file in the order of the text, a name
    captured twice being listed twice. *)
Theorem tool_names_listed (tool_files : list str) (read : str → str) :
  name <$> extract_tool_names tool_files read =
  sorted (filter (λ f, endswith f (lit ".test.ts") = false) tool_files) ≫=
    (λ p, filter (λ n, startswith n (lit "spectree__") = true)
                 (findall1 name_pattern (read p))) ∧
  name_file <$> extract_tool_names tool_files read =
  sorted (filter (λ f, endswith f (lit ".test.ts") = false) tool_files) ≫=
    (λ p, (λ _, p) <$> filter (λ n, startswith n (lit "spectree__") = true)
                              (findall1 name_pattern (read p))).
Proof. apply extract_tool_names_flat. Qed.

Lemma insert_by_name_perm (e : NameEntry) (l : list NameEntry) :
  insert_by_name e l ≡ₚ e :: l.
Proof.
  induction l as [|x l IH]; cbn; [done|].
  destruct (str_leb (name e) (name x)); [done|].
  by rewrite IH, Permutation_swap.
Qed.

Lemma insert_by_name_sorted (e : NameEntry) (l : list NameEntry) :
  StronglySorted name_le l → StronglySorted name_le (insert_by_name e l).
Proof.
  induction 1 as [|x l Hl IH Hx]; cbn.
  - repeat constructor.
  - destruct (str_leb (name e) (name x)) eqn:E.
    + constructor; [by constructor|]. constructor; [done|].
      eapply Forall_impl; [exact Hx|]. intros y Hy.
      unfold name_le in *. by etrans.
    + constructor; [done|]. rewrite insert_by_name_perm.
      constructor; [|done]. unfold name_le.
      destruct (total str_le (name x) (name e)) as [?|Hle]; [done|].
      unfold str_le in Hle. congruence.
Qed.

Lemma insert_by_name_filter (n : str) (e : NameEntry) (l : list NameEntry) :
  filter (λ x, name x = n) (insert_by_name e l) =
  filter (λ x, name x = n) (e :: l).
Proof.
  induction l as [|x l IH]; cbn [insert_by_name]; [done|].
  destruct (str_leb (name e) (name x)) eqn:E; [done|].
  rewrite filter_cons, IH, !filter_cons.
  destruct (decide (name x = n)) as [Hx|Hx], (decide (name e = n)) as [He|He];
    try done.
  exfalso. rewrite <- He in Hx. rewrite Hx in E.
  assert (str_le (name e) (name e)) as Hrefl
    by (destruct (total str_le (name e) (name e)); done).
  unfold str_le in Hrefl. congruence.
Qed.

(** X16: The listing shows every entry of the list once, in the order of the
    names; entries of the same name keep the order of the list. *)
Theorem listing_sorted_stable (tool_files : list str) (read : str → str) :
  listing tool_files read ≡ₚ extract_tool_names tool_files read ∧
  StronglySorted (λ a b, str_le (name a) (name b)) (listing tool_files read) ∧
  ∀ n, filter (λ e, name e = n) (listing tool_files read) =
       filter (λ e, name e = n) (extract_tool_names tool_files read).
Proof.
  unfold listing. generalize (extract_tool_names tool_files read). intros l.
  induction l as [|e l (IHp & IHs & IHf)]; cbn [sorted_by_name foldr].
  - split_and!; [done | constructor | done].
  - fold (sorted_by_name l). split_and!.
    + by rewrite insert_by_name_perm, IHp.
    + by apply insert_by_name_sorted.
    + intros n. rewrite insert_by_name_filter, !filter_cons, IHf. done.
Qed.

Lemma take_le_extend {A} (l : list A) (k1 k2 : nat) :
  k1 ≤ k2 → ∃ ext, take k2 l = take k1 l ++ ext.
Proof.
  intros Hle. exists (drop k1 (take k2 l)).
  rewrite <- (take_drop k1 (take k2 l)) at 1.
  by rewrite take_take, Nat.min_l.
Qed.

(** X17: The flag spreads down the file: once a tool is flagged, so is every
    tool of the same file whose name first occurs later in the text. *)
Theorem name_flag_spreads (tool_files : list str) (read : str → str)
    (e1 e2 : NameEntry) :
  e1 ∈ extract_tool_names tool_files read →
  e2 ∈ extract_tool_names tool_files read →
  name_file e1 = name_file e2 →
  (find (read (name_file e1)) (name e1) ≤
   find (read (name_file e1)) (name e2))%Z →
  name_deprecated e1 = true → name_deprecated e2 = true.
Proof.
  intros (_ & Hin1 & _ & Hd1)%extract_tool_names_elem_of
         (_ & Hin2 & _ & Hd2)%extract_tool_names_elem_of Hfile Hle.
  rewrite Hd1, Hd2, <- Hfile, !contains_spec.
  apply list_elem_of_fmap in Hin1 as (m1 & Hn1 & _).
  apply list_elem_of_fmap in Hin2 as (m2 & Hn2 & _).
  rewrite <- Hfile in Hn2.
  destruct (slice_to_find (read (name_file e1)) (name e1))
    as (b1 & a1 & Heq1 & _ & Hf1 & Hs1); [rewrite Hn1; apply occurs_group|].
  destruct (slice_to_find (read (name_file e1)) (name e2))
    as (b2 & a2 & Heq2 & _ & Hf2 & Hs2); [rewrite Hn2; apply occurs_group|].
  rewrite Hs1, Hs2. rewrite Hf1, Hf2 in Hle.
  assert (Hb1 : b1 = take (length b1) (read (name_file e1)))
    by (by rewrite Heq1, take_app_length).
  assert (Hb2 : b2 = take (length b2) (read (name_file e1)))
    by (by rewrite Heq2, take_app_length).
  destruct (take_le_extend (read (name_file e1)) (length b1) (length b2))
    as [ext Hext]; [lia|].
  rewrite <- Hb1, <- Hb2 in Hext.
  intros (l1 & l2 & ->). exists l1, (l2 ++ ext). rewrite Hext.
  by rewrite <- !app_assoc.
Qed.

Lemma name_flag_spreads_witness :
  name_deprecated
    {| name := lit "spectree__b"; name_file := lit "a.ts";
       name_deprecated := true |} = true.
Proof.
  apply (name_flag_spreads [lit "a.ts"] (λ _, two_tools_content)
           {| name := lit "spectree__a"; name_file := lit "a.ts";
              name_deprecated := true |}
           {| name := lit "spectree__b"; name_file := lit "a.ts";
              name_deprecated := true |}).
  - vm_compute. left.
  - vm_compute. right. left.
  - reflexivity.
  - vm_compute. discriminate.
  - reflexivity.
Defined.

(** A captured name is not empty and holds no quote. *)
Lemma name_match_group (content : str) (m : rematch) :
  m ∈ finditer name_pattern content →
  group content m 1 ≠ [] ∧ Forall (λ c, is_quote c = false) (group content m 1).
Proof.
  intros (pre & t & rest & -> & Hst & Hend & Hs)%finditer_shape.
  unfold name_pattern in Hs.
  apply shape_literal_inv in Hs as (t1 & -> & Hs). cbn [app] in Hs.
  change (plus not_quote) with [One not_quote; Star Greedy not_quote] in Hs.
  cbn [app] in Hs.
  apply shape_star_inv in Hs as (ws1 & t2 & -> & Hws1 & Hs).
  apply shape_one_inv in Hs as (q1 & t3 & -> & Hq1 & Hs).
  apply shape_save_inv in Hs.
  apply shape_one_inv in Hs as (i & t4 & -> & Hi & Hs).
  apply shape_star_inv in Hs as (id & t5 & -> & Hid & Hs).
  apply shape_save_inv in Hs.
  apply shape_one_inv in Hs as (q2 & t6 & -> & Hq2 & Hs).
  apply shape_nil_inv in Hs as [-> Hcaps].
  set (content := pre ++ _).
  assert (Hlen : ∀ (x : N) (l : str), length (x :: l) = S (length l)) by done.
  assert (Hg : group content m 1 = i :: id).
  { unfold group. rewrite Hcaps. cbn [reverse rev_append lookup list_lookup Nat.mul Nat.sub Nat.add].
    apply (slice_at _ (pre ++ lit "server.registerTool(" ++ ws1 ++ [q1]) _
             (q2 :: rest)).
    - subst content. repeat (rewrite <- app_assoc; cbn [app]). reflexivity.
    - repeat (rewrite length_app || rewrite Hlen). cbn [length]. lia.
    - repeat (rewrite length_app || rewrite Hlen). cbn [length]. lia. }
  rewrite Hg. split; [done|].
  eapply Forall_impl; [exact (Forall_cons_2 _ _ _ Hi Hid)|]. intros x Hx.
  unfold not_quote in Hx. by apply negb_true_iff in Hx.
Qed.

(** X18: Every listed name is not empty, holds no quote and stands verbatim in
    the file the entry names, which is one of the listed files and no
    test file. *)
Theorem tool_name_shape (tool_files : list str) (read : str → str)
    (e : NameEntry) :
  e ∈ extract_tool_names tool_files read →
  name e ≠ [] ∧
  Forall (λ c, is_quote c = false) (name e) ∧
  occurs (name e) (read (name_file e)) ∧
  name_file e ∈ tool_files ∧
  endswith (name_file e) (lit ".test.ts") = false.
Proof.
  intros He.
  pose proof (extract_tool_names_elem_of _ _ _ He) as (Hf & Hin & _ & _).
  apply list_elem_of_fmap in Hin as (m & Hn & Hm).
  destruct (name_match_group _ _ Hm) as [Hne Hnq].
  rewrite Hn. split_and!; [done | done | apply occurs_group | done |].
  apply (list_elem_of_fmap_2 name_file) in He.
  rewrite (proj2 (extract_tool_names_flat tool_files read)) in He.
  apply list_elem_of_bind in He as (p & Hp & Hps).
  apply list_elem_of_fmap in Hp as (_ & -> & _).
  by apply sorted_elem_of, list_elem_of_filter in Hps as [? _].
Qed.

Lemma tool_name_shape_witness :
  lit "spectree__a" ≠ [] ∧
  Forall (λ c, is_quote c = false) (lit "spectree__a") ∧
  occurs (lit "spectree__a") two_tools_content ∧
  lit "a.ts" ∈ [lit "a.ts"] ∧
  endswith (lit "a.ts") (lit ".test.ts") = false.
Proof.
  apply (tool_name_shape [lit "a.ts"] (λ _, two_tools_content)
           {| name := lit "spectree__a"; name_file := lit "a.ts";
              name_deprecated := true |}).
  vm_compute. left.
Defined.

(** ** The order of the file listings *)

Lemma sorted_permutation (l1 l2 : list str) : l1 ≡ₚ l2 → sorted l1 = sorted l2.
Proof.
  intros Hp. apply (StronglySorted_unique str_le); [apply sorted_strongly..|].
  by rewrite !sorted_perm.
Qed.

(** X19: The order in which the file listings name the files has no effect on
    any result. *)
Theorem listing_order_irrelevant (tool_files tool_files' doc_files doc_files' : list str)
    (read : str → str) :
  tool_files ≡ₚ tool_files' →
  doc_files ≡ₚ doc_files' →
  extract_tools_from_source tool_files read =
    extract_tools_from_source tool_files' read ∧
  extract_tools_from_docs doc_files read =
    extract_tools_from_docs doc_files' read ∧
  run_audit tool_files doc_files read = run_audit tool_files' doc_files' read ∧
  extract_tool_names tool_files read = extract_tool_names tool_files' read.
Proof.
  intros Ht Hd.
  assert (Hs : extract_tools_from_source tool_files read =
               extract_tools_from_source tool_files' read).
  { unfold extract_tools_from_source. f_equal. apply sorted_permutation.
    by rewrite Ht. }
  assert (Hdoc : extract_tools_from_docs doc_files read =
                 extract_tools_from_docs doc_files' read).
  { unfold extract_tools_from_docs. f_equal. by apply sorted_permutation. }
  split_and!; [done | done | |].
  - unfold run_audit. by rewrite Hs, Hdoc.
  - unfold extract_tool_names. f_equal. apply sorted_permutation. by rewrite Ht.
Qed.

Lemma listing_order_irrelevant_witness :
  extract_tools_from_source [lit "b.ts"; lit "a.ts"] ab_read =
    extract_tools_from_source [lit "a.ts"; lit "b.ts"] ab_read ∧
  extract_tools_from_docs [lit "y.md"; lit "x.md"] ab_read =
    extract_tools_from_docs [lit "x.md"; lit "y.md"] ab_read ∧
  run_audit [lit "b.ts"; lit "a.ts"] [lit "y.md"; lit "x.md"] ab_read =
    run_audit [lit "a.ts"; lit "b.ts"] [lit "x.md"; lit "y.md"] ab_read ∧
  extract_tool_names [lit "b.ts"; lit "a.ts"] ab_read =
    extract_tool_names [lit "a.ts"; lit "b.ts"] ab_read.
Proof.
  apply (listing_order_irrelevant [lit "b.ts"; lit "a.ts"] [lit "a.ts"; lit "b.ts"]
           [lit "y.md"; lit "x.md"] [lit "x.md"; lit "y.md"] ab_read).
  - apply Permutation_swap.
  - apply Permutation_swap.
Defined.

(** ** The labels of the documents *)

Lemma split_on_nonempty (sep : N) (s : str) : split_on sep s ≠ [].
Proof.
  induction s as [|x s IH]; cbn; [done|].
  destruct (decide (x = sep)); [done|]. by destruct (split_on sep s).
Qed.

Lemma split_on_app (sep : N) (a b : str) :
  split_on sep (a ++ sep :: b) = split_on sep a ++ split_on sep b.
Proof.
  induction a as [|x a IH]; cbn [app split_on].
  - by rewrite decide_True.
  - destruct (decide (x = sep)); [by rewrite IH|].
    rewrite IH. pose proof (split_on_nonempty sep a).
    by destruct (split_on sep a).
Qed.

Lemma split_on_absent (sep : N) (s : str) : sep ∉ s → split_on sep s = [s].
Proof.
  induction s as [|x s IH]; [done|].
  intros [Hx Hs]%not_elem_of_cons. cbn.
  rewrite decide_False by done. by rewrite IH.
Qed.

Lemma path_name_basename (dir base : str) :
  47%N ∉ base → base ≠ [] → base ≠ lit "." →
  path_name (dir ++ lit "/" ++ base) = base.
Proof.
  intros Hsep Hne Hdot. unfold path_name.
  change (lit "/" ++ base) with (47%N :: base).
  rewrite split_on_app, (split_on_absent _ base) by done.
  rewrite filter_app, filter_cons, decide_True by done.
  rewrite filter_nil. by rewrite last_snoc.
Qed.

(** X20: The label of a document is the part of its path after the last
    slash. *)
Theorem doc_label_is_basename (dir base : str) :
  47%N ∉ base → base ≠ [] → base ≠ lit "." →
  path_name (dir ++ lit "/" ++ base) = base.
Proof. apply path_name_basename. Qed.

Lemma doc_label_is_basename_witness :
  path_name (lit "docs/mcp" ++ lit "/" ++ lit "tools.md") = lit "tools.md".
Proof.
  apply (doc_label_is_basename (lit "docs/mcp") (lit "tools.md")).
  - apply (bool_decide_unpack _). vm_compute. exact I.
  - done.
  - done.
Defined.

(** X21: The documents of one directory have pairwise different labels. *)
Theorem labels_distinct_in_directory (dir : str) (bases : list str) :
  NoDup bases →
  Forall (λ b, (47%N ∉ b) ∧ b ≠ [] ∧ b ≠ lit ".") bases →
  NoDup (path_name <$> ((λ b, dir ++ lit "/" ++ b) <$> bases)).
Proof.
  intros Hnd Hok.
  assert (Heq : path_name <$> ((λ b, dir ++ lit "/" ++ b) <$> bases) = bases).
  { clear Hnd. induction Hok as [|b bases (? & ? & ?) Hok IH]; [done|].
    cbn [fmap list_fmap]. f_equal; [by apply path_name_basename | exact IH]. }
  by rewrite Heq.
Qed.

Lemma labels_distinct_in_directory_witness :
  NoDup (path_name <$> ((λ b, lit "docs/mcp" ++ lit "/" ++ b) <$>
                          [lit "tools.md"; lit "api.md"])).
Proof.
  apply (labels_distinct_in_directory (lit "docs/mcp") [lit "tools.md"; lit "api.md"]).
  - apply (bool_decide_unpack _). vm_compute. exact I.
  - repeat constructor; try done; apply (bool_decide_unpack _); vm_compute; exact I.
Defined.
